(** * age_calculator: the age rule, pagination arithmetic and the CRUD surface

    A shallow embedding of the Go service [srinivasarynh/age_calculator]:
    [internal/service/user_service.go], [internal/models/user.go],
    [internal/repository/user_repository.go], [internal/middleware/middleware.go],
    [internal/handler/user_handler.go] and the tests of the age rule in
    [internal/service/user_service_test.go].

    Go's [int] is the 64-bit two's complement integer of the amd64/arm64
    targets; [int32] is the 32-bit one.  Both are carried as [Z] with the
    wrap-around written out. *)

From Stdlib Require Import ZArith Lia Bool List Ascii SpecFloat.
From stdpp Require Import gmap strings list sorting.

Local Open Scope Z_scope.

(** * Part I: the model *)

(** ** Machine integers *)

Module GoInt.

(** Two's complement reduction to [w] bits. *)
Definition wrap (w : Z) (z : Z) : Z :=
  (z + 2 ^ (w - 1)) mod 2 ^ w - 2 ^ (w - 1).

Definition int (z : Z) : Z := wrap 64 z.
Definition int32 (z : Z) : Z := wrap 32 z.

Definition in_int (z : Z) : Prop := - 2 ^ 63 <= z < 2 ^ 63.
Definition in_int32 (z : Z) : Prop := - 2 ^ 31 <= z < 2 ^ 31.

Definition sub (a b : Z) : Z := int (a - b).
Definition mul (a b : Z) : Z := int (a * b).

End GoInt.

(** ** Calendar dates

    [CalculateAge] reads a [time.Time] only through [Year()], [Month()] and
    [Day()]; a [Time] here is that triple. *)

Record Time : Type := mkTime { Year : Z; Month : Z; Day : Z }.

(** Years of every [time.Time] are far inside this interval (the type counts
    64-bit seconds, so |year| stays below 3 * 10^11). *)
Definition year_ok (t : Time) : Prop := - 2 ^ 62 <= Year t < 2 ^ 62.

(** The proleptic Gregorian calendar, as [time.Date] normalises it. *)
Definition isLeap (y : Z) : bool :=
  (y mod 4 =? 0) && (negb (y mod 100 =? 0) || (y mod 400 =? 0)).

Definition daysIn (m y : Z) : Z :=
  if m =? 2 then (if isLeap y then 29 else 28)
  else if (m =? 4) || (m =? 6) || (m =? 9) || (m =? 11) then 30
  else 31.

Definition valid_date (t : Time) : Prop :=
  year_ok t /\ 1 <= Month t <= 12 /\ 1 <= Day t <= daysIn (Month t) (Year t).

(** The calendar day before [t] ([t.AddDate(0, 0, -1)]). *)
Definition prev_day (t : Time) : Time :=
  if 1 <? Day t then mkTime (Year t) (Month t) (Day t - 1)
  else if 1 <? Month t then
    mkTime (Year t) (Month t - 1) (daysIn (Month t - 1) (Year t))
  else mkTime (Year t - 1) 12 31.

(** Chronological order on dates: lexicographic on (year, month, day). *)
Definition date_ltb (a b : Time) : bool :=
  (Year a <? Year b) ||
  ((Year a =? Year b) &&
   ((Month a <? Month b) || ((Month a =? Month b) && (Day a <? Day b)))).

Definition date_lt (a b : Time) : Prop := date_ltb a b = true.
Definition date_le (a b : Time) : Prop := date_ltb b a = false.

(** Lexicographic order on (month, day) pairs, as the specification words it. *)
Definition md_ltb (a b : Z * Z) : bool :=
  match fst a ?= fst b with
  | Lt => true
  | Eq => snd a <? snd b
  | Gt => false
  end.

Definition month_day (t : Time) : Z * Z := (Month t, Day t).

(** ** The age rule ([service.CalculateAge])

    The source reads the clock with [time.Now()]; the reading is the first
    argument here. *)
Definition CalculateAge (now dob : Time) : Z :=
  let age := GoInt.sub (Year now) (Year dob) in
  if (Month now <? Month dob) ||
     ((Month now =? Month dob) && (Day now <? Day dob))
  then GoInt.sub age 1
  else age.

(** The decrement of the age rule as a number, in the specification's words. *)
Definition decrement (r d : Time) : Z :=
  if md_ltb (month_day r) (month_day d) then 1 else 0.

(** A date of birth on 29 February seen from 1 March of a common year. *)
Definition leap_day_rollover (d r : Time) : Prop :=
  Month d = 2 /\ Day d = 29 /\ Month r = 3 /\ Day r = 1 /\ isLeap (Year r) = false.

(** ** The layout "2006-01-02" ([time.Parse] and [Time.Format]) *)

Module Layout.

Definition digit (c : ascii) : option Z :=
  let n := Z.of_nat (nat_of_ascii c) in
  if (48 <=? n) && (n <=? 57) then Some (n - 48) else None.

Definition num2 (a b : ascii) : option Z :=
  match digit a, digit b with
  | Some x, Some y => Some (x * 10 + y)
  | _, _ => None
  end.

Definition num4 (a b c d : ascii) : option Z :=
  match num2 a b, num2 c d with
  | Some x, Some y => Some (x * 100 + y)
  | _, _ => None
  end.

Definition is_dash (c : ascii) : bool := Ascii.eqb c "-"%char.

(** [time.Parse("2006-01-02", s)]: four year digits, a dash, two month
    digits, a dash, two day digits and nothing after them; the month must
    lie in 1..12 and the day in the month. *)
Definition Parse (s : string) : option Time :=
  match s with
  | String y1 (String y2 (String y3 (String y4 (String s1
    (String m1 (String m2 (String s2
    (String d1 (String d2 EmptyString))))))))) =>
      match num4 y1 y2 y3 y4, num2 m1 m2, num2 d1 d2 with
      | Some y, Some m, Some d =>
          if is_dash s1 && is_dash s2 &&
             (1 <=? m) && (m <=? 12) && (1 <=? d) && (d <=? daysIn m y)
          then Some (mkTime y m d) else None
      | _, _, _ => None
      end
  | _ => None
  end.

Definition digit_char (z : Z) : ascii := ascii_of_nat (Z.to_nat (48 + z mod 10)).

Fixpoint digits_rev (fuel : nat) (z : Z) : list ascii :=
  match fuel with
  | O => []
  | S fuel' =>
      if z <? 10 then [digit_char z]
      else digit_char z :: digits_rev fuel' (z / 10)
  end.

(** [appendInt(b, x, width)]: sign, then the decimal digits padded with
    zeros on the left up to [width]. *)
Definition appendInt (x : Z) (width : nat) : string :=
  let ds := rev (digits_rev 20 (Z.abs x)) in
  let pad := repeat "0"%char (width - length ds) in
  let body := foldr String EmptyString (pad ++ ds) in
  if x <? 0 then String "-"%char body else body.

Definition Format (t : Time) : string :=
  appendInt (Year t) 4 +:+ "-" +:+ appendInt (Month t) 2 +:+ "-" +:+
  appendInt (Day t) 2.

End Layout.

(** ** [float64] arithmetic of [ListUsers]

    IEEE 754 binary64 through the Standard Library's executable
    specification of floating-point numbers. *)

Module Float64.

Definition prec : Z := 53.
Definition emax : Z := 1024.

(** [float64(n)] for an integer [n]: round to nearest, ties to even. *)
Definition of_int (n : Z) : spec_float := binary_normalize prec emax n 0 false.

Definition div (x y : spec_float) : spec_float := SFdiv prec emax x y.

Definition signed (s : bool) (m : positive) : Z := cond_Zopp s (Zpos m).

(** [math.Ceil]: the least integral value not below [x]; zeros, infinities
    and NaN are returned as they are. *)
Definition Ceil (x : spec_float) : spec_float :=
  match x with
  | S754_finite s m e =>
      if 0 <=? e then x
      else binary_normalize prec emax (- ((- signed s m) / 2 ^ (- e))) 0 s
  | _ => x
  end.

(** [int(x)]: truncation toward zero.  Go leaves the result open when the
    value does not fit; amd64 yields the least [int] then. *)
Definition to_int (x : spec_float) : Z :=
  match x with
  | S754_zero _ => 0
  | S754_finite s m e =>
      let t := if 0 <=? e then signed s m * 2 ^ e
               else Z.quot (signed s m) (2 ^ (- e)) in
      if (- 2 ^ 63 <=? t) && (t <? 2 ^ 63) then t else - 2 ^ 63
  | _ => - 2 ^ 63
  end.

End Float64.

(** ** Rounding and ceiling of integer quotients

    What the specification means by the ceiling of a real quotient, and the
    round-to-nearest-even that [float64] division performs. *)

(** The ceiling of the quotient [t / s] of two integers, [s] positive. *)
Definition ceil_div (t s : Z) : Z := - ((- t) / s).

(** [n / d] rounded to the nearest integer, ties to the even one. *)
Definition rne_div (n d : Z) : Z :=
  let q := n / d in
  match 2 * (n mod d) ?= d with
  | Lt => q
  | Eq => if Z.even q then q else q + 1
  | Gt => q + 1
  end.

(** A mantissa of 53 bits, or 2^53 right after rounding up, as a float. *)
Definition pack (m e : Z) : spec_float :=
  if m <? 2 ^ 53 then S754_finite false (Z.to_pos m) e
  else S754_finite false (Z.to_pos (2 ^ 52)) (e + 1).

(** ** Models ([internal/models/user.go]) *)

Record User : Type := mkUser {
  ID : Z;
  Name : string;
  DOB : Time;
  CreatedAt : Z;
  UpdatedAt : Z
}.

Record CreateUserRequest : Type := mkCreateUserRequest {
  create_Name : string;
  create_DOB : string
}.

Record UpdateUserRequest : Type := mkUpdateUserRequest {
  update_Name : string;
  update_DOB : string
}.

(** [Age] is [*int] with [json:"age,omitempty"]: [None] is the nil pointer. *)
Record UserResponse : Type := mkUserResponse {
  resp_ID : Z;
  resp_Name : string;
  resp_DOB : string;
  resp_Age : option Z
}.

Record UserListResponse : Type := mkUserListResponse {
  Users : list UserResponse;
  Total : Z;
  list_Page : Z;
  list_PageSize : Z;
  TotalPages : Z
}.

Record PaginationParams : Type := mkPaginationParams {
  Page : Z;
  PageSize : Z
}.

Definition SetDefaults (p : PaginationParams) : PaginationParams :=
  let p := if Page p =? 0 then mkPaginationParams 1 (PageSize p) else p in
  if PageSize p =? 0 then mkPaginationParams (Page p) 10 else p.

Definition GetOffset (p : PaginationParams) : Z :=
  GoInt.int32 (GoInt.mul (GoInt.sub (Page p) 1) (PageSize p)).

Definition GetLimit (p : PaginationParams) : Z := GoInt.int32 (PageSize p).

(** The [validate] tags of [PaginationParams]: [omitempty,min=1] on [Page],
    [omitempty,min=1,max=100] on [PageSize]; a zero field is not checked. *)
Definition validation_errors (p : PaginationParams) : list string :=
  (if (Page p =? 0) || (1 <=? Page p) then []
   else ["Page validation failed on min"]) ++
  (if PageSize p =? 0 then []
   else if PageSize p <? 1 then ["PageSize validation failed on min"]
   else if 100 <? PageSize p then ["PageSize validation failed on max"]
   else []).

Definition validate_PaginationParams (p : PaginationParams) : bool :=
  match validation_errors p with
  | [] => true
  | _ :: _ => false
  end.

(** ** Errors

    The error values that travel between the layers.  [Error] is the text of
    Go's [err.Error()]. *)

Inductive error : Type :=
  | sql_ErrNoRows
  | ErrUserNotFound
  | ErrInvalidDate
  | DriverError (msg : string).

Definition Error (e : error) : string :=
  match e with
  | sql_ErrNoRows => "sql: no rows in result set"
  | ErrUserNotFound => "user not found"
  | ErrInvalidDate => "invalid date format"
  | DriverError msg => msg
  end.

Definition is_ErrUserNotFound (e : error) : bool :=
  match e with ErrUserNotFound => true | _ => false end.

Definition is_ErrInvalidDate (e : error) : bool :=
  match e with ErrInvalidDate => true | _ => false end.

Inductive result (A : Type) : Type :=
  | Ok (a : A)
  | Err (e : error).
Arguments Ok {A} a.
Arguments Err {A} e.

(** ** The user store ([internal/repository/user_repository.go])

    The [users] table is the list of its rows together with the next value of
    the [serial] id.  A statement that the driver fails to run is a
    [Some msg] fault handed to the operation; the table is then untouched. *)

Module Repo.

Record Table : Type := mkTable { rows : list User; next_id : Z }.

Definition has_id (id : Z) (u : User) : bool := ID u =? id.

(** The [serial] column hands out ids above every id in the table. *)
Definition fresh_ids (db : Table) : Prop :=
  Forall (fun u => ID u < next_id db) (rows db).

Fixpoint insert_by_id (u : User) (l : list User) : list User :=
  match l with
  | [] => [u]
  | v :: l' => if ID u <=? ID v then u :: l else v :: insert_by_id u l'
  end.

(** [ORDER BY id]. *)
Definition order_by_id (l : list User) : list User := foldr insert_by_id [] l.

Definition Create (db : Table) (fault : option string) (clock : Z)
    (name : string) (dob : Time) : result User * Table :=
  match fault with
  | Some msg => (Err (DriverError msg), db)
  | None =>
      let user := mkUser (next_id db) name dob clock clock in
      (Ok user, mkTable (rows db ++ [user]) (next_id db + 1))
  end.

(** [None] in the result is the [nil, nil] return for [sql.ErrNoRows]. *)
Definition GetById (db : Table) (fault : option string) (id : Z)
    : result (option User) :=
  match fault with
  | Some msg => Err (DriverError msg)
  | None => Ok (find (has_id id) (rows db))
  end.

(** [LIMIT $1 OFFSET $2]; PostgreSQL refuses a negative limit or offset. *)
Definition List (db : Table) (fault : option string) (limit offset : Z)
    : result (list User) :=
  match fault with
  | Some msg => Err (DriverError msg)
  | None =>
      if limit <? 0 then Err (DriverError "pq: LIMIT must not be negative")
      else if offset <? 0 then Err (DriverError "pq: OFFSET must not be negative")
      else Ok (take (Z.to_nat limit) (drop (Z.to_nat offset) (order_by_id (rows db))))
  end.

Definition set_fields (clock : Z) (id : Z) (name : string) (dob : Time)
    (u : User) : User :=
  if has_id id u then mkUser (ID u) name dob (CreatedAt u) clock else u.

Definition Update (db : Table) (fault : option string) (clock : Z)
    (id : Z) (name : string) (dob : Time) : result (option User) * Table :=
  match fault with
  | Some msg => (Err (DriverError msg), db)
  | None =>
      let rows' := map (set_fields clock id name dob) (rows db) in
      (Ok (find (has_id id) rows'), mkTable rows' (next_id db))
  end.

(** [exec_fault] is a failure of [ExecContext], [rows_fault] one of
    [RowsAffected]; the latter is reported after the statement has run. *)
Definition Delete (db : Table) (exec_fault rows_fault : option string) (id : Z)
    : option error * Table :=
  match exec_fault with
  | Some msg => (Some (DriverError msg), db)
  | None =>
      let rowsAffected := Z.of_nat (length (filter (fun u => has_id id u = true) (rows db))) in
      let db' := mkTable (filter (fun u => has_id id u = false) (rows db)) (next_id db) in
      match rows_fault with
      | Some msg => (Some (DriverError msg), db')
      | None =>
          if rowsAffected =? 0 then (Some sql_ErrNoRows, db') else (None, db')
      end
  end.

Definition Count (db : Table) (fault : option string) : result Z :=
  match fault with
  | Some msg => Err (DriverError msg)
  | None => Ok (Z.of_nat (length (rows db)))
  end.

End Repo.

(** ** The user service ([internal/service/user_service.go])

    [clock] is the store's [CURRENT_TIMESTAMP], [now] the reading of
    [time.Now()]; logging is left out. *)

Module Service.

Definition CreateUser (db : Repo.Table) (fault : option string) (clock : Z)
    (req : CreateUserRequest) : result UserResponse * Repo.Table :=
  match Layout.Parse (create_DOB req) with
  | None => (Err ErrInvalidDate, db)
  | Some dob =>
      match Repo.Create db fault clock (create_Name req) dob with
      | (Err e, db') => (Err e, db')
      | (Ok user, db') =>
          (Ok (mkUserResponse (ID user) (Name user) (Layout.Format (DOB user)) None),
           db')
      end
  end.

Definition GetUser (db : Repo.Table) (fault : option string) (now : Time)
    (id : Z) : result UserResponse :=
  match Repo.GetById db fault id with
  | Err e => Err e
  | Ok None => Err ErrUserNotFound
  | Ok (Some user) =>
      let age := CalculateAge now (DOB user) in
      Ok (mkUserResponse (ID user) (Name user) (Layout.Format (DOB user)) (Some age))
  end.

Definition user_with_age (now : Time) (user : User) : UserResponse :=
  let age := CalculateAge now (DOB user) in
  mkUserResponse (ID user) (Name user) (Layout.Format (DOB user)) (Some age).

(** [int(math.Ceil(float64(total) / float64(pageSize)))]. *)
Definition total_pages (total pageSize : Z) : Z :=
  Float64.to_int
    (Float64.Ceil (Float64.div (Float64.of_int total) (Float64.of_int pageSize))).

(** The list and the count are two statements outside any transaction:
    [db] is the table as the first one sees it, [db_count] the table as the
    second one does. *)
Definition ListUsers (db db_count : Repo.Table)
    (list_fault count_fault : option string)
    (now : Time) (params : PaginationParams) : result UserListResponse :=
  let params := SetDefaults params in
  match Repo.List db list_fault (GetLimit params) (GetOffset params) with
  | Err e => Err e
  | Ok users =>
      match Repo.Count db_count count_fault with
      | Err e => Err e
      | Ok total =>
          let userResponses := map (user_with_age now) users in
          let totalPages := total_pages total (PageSize params) in
          Ok (mkUserListResponse userResponses total (Page params)
                (PageSize params) totalPages)
      end
  end.

Definition UpdateUser (db : Repo.Table) (fault : option string) (clock : Z)
    (id : Z) (req : UpdateUserRequest) : result UserResponse * Repo.Table :=
  match Layout.Parse (update_DOB req) with
  | None => (Err ErrInvalidDate, db)
  | Some dob =>
      match Repo.Update db fault clock id (update_Name req) dob with
      | (Err e, db') => (Err e, db')
      | (Ok None, db') => (Err ErrUserNotFound, db')
      | (Ok (Some user), db') =>
          (Ok (mkUserResponse (ID user) (Name user) (Layout.Format (DOB user)) None),
           db')
      end
  end.

Definition DeleteUser (db : Repo.Table) (exec_fault rows_fault : option string)
    (id : Z) : option error * Repo.Table :=
  match Repo.Delete db exec_fault rows_fault id with
  | (Some err, db') =>
      if String.eqb (Error err) "sql: no rows in result set"
      then (Some ErrUserNotFound, db')
      else (Some err, db')
  | (None, db') => (None, db')
  end.

End Service.

(** ** The HTTP context (the part of [fiber.Ctx] the code uses) *)

#[local] Unset Elimination Schemes.
Inductive json : Type :=
  | JNum (z : Z)
  | JStr (s : string)
  | JArr (l : list json)
  | JObj (fields : gmap string json).
#[local] Set Elimination Schemes.

Record Ctx : Type := mkCtx {
  req_headers : gmap string string;
  req_params : gmap string string;
  req_query : option PaginationParams;
  locals : gmap string string;
  resp_headers : gmap string string;
  resp_status : Z;
  resp_body : option json
}.

Module Fiber.

Definition StatusOK : Z := 200.
Definition StatusNoContent : Z := 204.
Definition StatusBadRequest : Z := 400.
Definition StatusNotFound : Z := 404.
Definition StatusInternalServerError : Z := 500.

(** [c.Get(key)]: the request header, or the empty string. *)
Definition Get (c : Ctx) (key : string) : string :=
  default "" (req_headers c !! key).

(** [c.Set(key, val)]: sets a response header. *)
Definition Set_ (c : Ctx) (key val : string) : Ctx :=
  mkCtx (req_headers c) (req_params c) (req_query c) (locals c)
        (<[key := val]> (resp_headers c)) (resp_status c) (resp_body c).

Definition SetLocal (c : Ctx) (key val : string) : Ctx :=
  mkCtx (req_headers c) (req_params c) (req_query c)
        (<[key := val]> (locals c))
        (resp_headers c) (resp_status c) (resp_body c).

Definition Params (c : Ctx) (key : string) : string :=
  default "" (req_params c !! key).

(** [c.QueryParser(&params)]: every field the query string gives as a number
    is stored, a field that is missing or does not decode stays zero.  For a
    value that does not decode the call also returns an error, which the list
    handler only logs, so the struct is all that goes on.  [req_query c] is
    that struct; [None] when no field was stored. *)
Definition QueryParser (c : Ctx) : PaginationParams :=
  default (mkPaginationParams 0 0) (req_query c).

Definition Status (c : Ctx) (code : Z) : Ctx :=
  mkCtx (req_headers c) (req_params c) (req_query c) (locals c)
        (resp_headers c) code (resp_body c).

Definition JSON (c : Ctx) (body : json) : Ctx :=
  mkCtx (req_headers c) (req_params c) (req_query c) (locals c)
        (<["Content-Type" := "application/json"]> (resp_headers c))
        (resp_status c) (Some body).

(** [c.SendStatus(code)]; a 204 goes out without a body. *)
Definition SendStatus (c : Ctx) (code : Z) : Ctx := Status c code.

(** [fiber.Map{"error": msg}]. *)
Definition error_map (msg : string) : json := JObj {[ "error" := JStr msg ]}.

Definition is_2xx (code : Z) : bool := (200 <=? code) && (code <? 300).

(** The member [key] of a JSON object body. *)
Definition body_field (c : Ctx) (key : string) : option json :=
  match resp_body c with
  | Some (JObj fields) => fields !! key
  | _ => None
  end.

(** A request as it reaches the application: nothing set on the response. *)
Definition request (headers params : gmap string string)
    (query : option PaginationParams) : Ctx :=
  mkCtx headers params query ∅ ∅ StatusOK None.

End Fiber.

(** ** Middleware ([internal/middleware/middleware.go]) *)

Module Middleware.

(** [uuid] is the value of [uuid.New().String()]; [next] the rest of the
    handler chain. *)
Definition RequestID (uuid : string) (next : Ctx -> Ctx) (c : Ctx) : Ctx :=
  let requestID := Fiber.Get c "X-Request-ID" in
  let requestID := if String.eqb requestID "" then uuid else requestID in
  let c := Fiber.Set_ c "X-Request_ID" requestID in
  let c := Fiber.SetLocal c "requestID" requestID in
  next c.

(** The error handed to [ErrorHandler]: a [*fiber.Error] or any other. *)
Inductive handler_error : Type :=
  | FiberError (code : Z) (message : string)
  | OtherError (e : error).

Definition ErrorHandler (c : Ctx) (err : handler_error) : Ctx :=
  let '(code, message) :=
    match err with
    | FiberError code message => (code, message)
    | OtherError _ => (Fiber.StatusInternalServerError, "Internal Server Error")
    end in
  let requestID := default "" (locals c !! "requestID") in
  Fiber.JSON (Fiber.Status c code)
    (JObj (<["error" := JStr message]> {[ "request_id" := JStr requestID ]})).

(** What [Logger] writes of a request (method, path, duration and address
    are not part of [Ctx]). *)
Record LogEntry : Type := mkLogEntry {
  log_request_id : string;
  log_status : Z;
  log_user_agent : string
}.

(** [c.Locals("requestID").(string)] panics when the local was never set;
    [None] is that panic.  [next] is [c.Next()]: the context as the rest of
    the chain left it and the error the chain returned, if any.  The entry
    is written when [c.Next()] has returned, with the status the response
    has at that moment, and the error is handed on. *)
Definition Logger (next : Ctx -> Ctx * option handler_error) (c : Ctx)
    : option (Ctx * option handler_error * LogEntry) :=
  match locals c !! "requestID" with
  | None => None
  | Some requestID =>
      let '(c', err) := next c in
      Some (c', err,
            mkLogEntry requestID (resp_status c') (Fiber.Get c' "User-Agent"))
  end.

(** What fiber does with the outcome of the chain: an error goes to the
    [ErrorHandler] configured in [cmd/server/main.go], after every
    middleware has returned. *)
Definition respond (r : Ctx * option handler_error) : Ctx :=
  match r with
  | (c, None) => c
  | (c, Some err) => ErrorHandler c err
  end.

End Middleware.

(** The request id a request ends up with: the caller's "X-Request-ID" when
    it is not empty, the generated one otherwise. *)
Definition chosen_id (uuid : string) (headers : gmap string string) : string :=
  let given := default "" (headers !! "X-Request-ID") in
  if String.eqb given "" then uuid else given.

(** ** Handlers ([internal/handler/user_handler.go]) *)

Module Handler.

Fixpoint digits (acc : Z) (s : string) : option Z :=
  match s with
  | EmptyString => Some acc
  | String c s' =>
      match Layout.digit c with
      | Some d => digits (acc * 10 + d) s'
      | None => None
      end
  end.

(** [strconv.ParseInt(s, 10, 32)]: an optional sign, at least one decimal
    digit, and a value that fits 32 bits; [None] is the error return. *)
Definition ParseInt32 (s : string) : option Z :=
  let '(sign, body) :=
    match s with
    | String c rest =>
        if Ascii.eqb c "+"%char then (1, rest)
        else if Ascii.eqb c "-"%char then (-1, rest)
        else (1, s)
    | EmptyString => (1, s)
    end in
  match body with
  | EmptyString => None
  | _ =>
      match digits 0 body with
      | Some n =>
          let v := sign * n in
          if (- 2 ^ 31 <=? v) && (v <? 2 ^ 31) then Some v else None
      | None => None
      end
  end.

Definition json_of_UserResponse (u : UserResponse) : json :=
  let base : gmap string json :=
    <["id" := JNum (resp_ID u)]>
      (<["name" := JStr (resp_Name u)]> {[ "dob" := JStr (resp_DOB u) ]}) in
  match resp_Age u with
  | Some age => JObj (<["age" := JNum age]> base)
  | None => JObj base
  end.

Definition json_of_UserListResponse (r : UserListResponse) : json :=
  JObj (<["users" := JArr (map json_of_UserResponse (Users r))]>
       (<["total" := JNum (Total r)]>
       (<["page" := JNum (list_Page r)]>
       (<["page_size" := JNum (list_PageSize r)]>
        {[ "total_pages" := JNum (TotalPages r) ]})))).

Definition GetUser (db : Repo.Table) (fault : option string) (now : Time)
    (c : Ctx) : Ctx :=
  let idParam := Fiber.Params c "id" in
  match ParseInt32 idParam with
  | None => Fiber.JSON (Fiber.Status c Fiber.StatusBadRequest)
              (Fiber.error_map "Invalid user ID")
  | Some id =>
      match Service.GetUser db fault now (GoInt.int32 id) with
      | Err err =>
          if is_ErrUserNotFound err
          then Fiber.JSON (Fiber.Status c Fiber.StatusNotFound)
                 (Fiber.error_map "User not found")
          else Fiber.JSON (Fiber.Status c Fiber.StatusInternalServerError)
                 (Fiber.error_map "Failed to get user")
      | Ok user => Fiber.JSON c (json_of_UserResponse user)
      end
  end.

(** [QueryParser] fills the parameters from the query string; when it
    reports an error the handler only logs it and goes on with the fields
    that were filled. *)
Definition ListUsers (db db_count : Repo.Table)
    (list_fault count_fault : option string)
    (now : Time) (c : Ctx) : Ctx :=
  let params := Fiber.QueryParser c in
  if negb (validate_PaginationParams params)
  then Fiber.JSON (Fiber.Status c Fiber.StatusBadRequest)
         (JObj (<["error" := JStr "Invalid pagination parameters"]>
                  {[ "details" := JArr (map JStr (validation_errors params)) ]}))
  else
    match Service.ListUsers db db_count list_fault count_fault now params with
    | Err _ => Fiber.JSON (Fiber.Status c Fiber.StatusInternalServerError)
                 (Fiber.error_map "Failed to list users")
    | Ok res => Fiber.JSON c (json_of_UserListResponse res)
    end.

Definition DeleteUser (db : Repo.Table) (exec_fault rows_fault : option string)
    (c : Ctx) : Ctx * Repo.Table :=
  let idParam := Fiber.Params c "id" in
  match ParseInt32 idParam with
  | None => (Fiber.JSON (Fiber.Status c Fiber.StatusBadRequest)
               (Fiber.error_map "Invalid user ID"), db)
  | Some id =>
      match Service.DeleteUser db exec_fault rows_fault (GoInt.int32 id) with
      | (Some err, db') =>
          if is_ErrUserNotFound err
          then (Fiber.JSON (Fiber.Status c Fiber.StatusNotFound)
                  (Fiber.error_map "User not found"), db')
          else (Fiber.JSON (Fiber.Status c Fiber.StatusInternalServerError)
                  (Fiber.error_map "Failed to delete user"), db')
      | (None, db') => (Fiber.SendStatus c Fiber.StatusNoContent, db')
      end
  end.

End Handler.

(** ** Request bodies: validation and the create and update handlers

    The [validate] tags of the two request structs as go-playground's
    validator checks them (the first failing tag of each field, fields in
    declaration order), rendered by [formatValidationErrors].  The length
    tags count runes; [RuneCount] stands for [utf8.RuneCountInString].
    [body] is what [BodyParser] made of the request body, [None] when it
    failed. *)

Module Body.

Section Runes.

Variable RuneCount : string -> Z.

(** [Name]: [required,min=2,max=100]. *)
Definition name_errors (name : string) : list string :=
  if String.eqb name "" then ["Name validation failed on required"]
  else if RuneCount name <? 2 then ["Name validation failed on min"]
  else if 100 <? RuneCount name then ["Name validation failed on max"]
  else [].

(** [DOB]: [required,datetime=2006-01-02]. *)
Definition dob_errors (dob : string) : list string :=
  if String.eqb dob "" then ["DOB validation failed on required"]
  else match Layout.Parse dob with
       | None => ["DOB validation failed on datetime"]
       | Some _ => []
       end.

Definition request_errors (name dob : string) : list string :=
  name_errors name ++ dob_errors dob.

Definition validation_failed (c : Ctx) (errs : list string) : Ctx :=
  Fiber.JSON (Fiber.Status c Fiber.StatusBadRequest)
    (JObj (<["error" := JStr "Validation failed"]>
             {[ "details" := JArr (map JStr errs) ]})).

Definition CreateUser (db : Repo.Table) (fault : option string) (clock : Z)
    (body : option CreateUserRequest) (c : Ctx) : Ctx * Repo.Table :=
  match body with
  | None => (Fiber.JSON (Fiber.Status c Fiber.StatusBadRequest)
               (Fiber.error_map "Invalid request body"), db)
  | Some req =>
      match request_errors (create_Name req) (create_DOB req) with
      | (_ :: _) as errs => (validation_failed c errs, db)
      | [] =>
          match Service.CreateUser db fault clock req with
          | (Err err, db') =>
              if is_ErrInvalidDate err
              then (Fiber.JSON (Fiber.Status c Fiber.StatusBadRequest)
                      (Fiber.error_map "Invalid date format. Expected YYYY-MM-DD"), db')
              else (Fiber.JSON (Fiber.Status c Fiber.StatusInternalServerError)
                      (Fiber.error_map "Failed to create user"), db')
          | (Ok user, db') =>
              (Fiber.JSON (Fiber.Status c 201) (Handler.json_of_UserResponse user), db')
          end
      end
  end.

Definition UpdateUser (db : Repo.Table) (fault : option string) (clock : Z)
    (body : option UpdateUserRequest) (c : Ctx) : Ctx * Repo.Table :=
  let idParam := Fiber.Params c "id" in
  match Handler.ParseInt32 idParam with
  | None => (Fiber.JSON (Fiber.Status c Fiber.StatusBadRequest)
               (Fiber.error_map "Invaid user ID"), db)
  | Some id =>
      match body with
      | None => (Fiber.JSON (Fiber.Status c Fiber.StatusBadRequest)
                   (Fiber.error_map "Invalid request body"), db)
      | Some req =>
          match request_errors (update_Name req) (update_DOB req) with
          | (_ :: _) as errs => (validation_failed c errs, db)
          | [] =>
              match Service.UpdateUser db fault clock (GoInt.int32 id) req with
              | (Err err, db') =>
                  if is_ErrUserNotFound err
                  then (Fiber.JSON (Fiber.Status c Fiber.StatusNotFound)
                          (Fiber.error_map "User not found"), db')
                  else if is_ErrInvalidDate err
                  then (Fiber.JSON (Fiber.Status c Fiber.StatusBadRequest)
                          (Fiber.error_map "Invalid date format. Expected YYYY-MM-DD"), db')
                  else (Fiber.JSON (Fiber.Status c Fiber.StatusInternalServerError)
                          (Fiber.error_map "Failed to update user"), db')
              | (Ok user, db') =>
                  (Fiber.JSON c (Handler.json_of_UserResponse user), db')
              end
          end
      end
  end.

End Runes.

End Body.

(** ** Predicates on the table *)

(** The primary key: no two rows share an id. *)
Definition unique_ids (db : Repo.Table) : Prop := NoDup (map ID (Repo.rows db)).

(** Every stored date of birth is a calendar date. *)
Definition valid_dobs (db : Repo.Table) : Prop :=
  Forall (fun u => valid_date (DOB u)) (Repo.rows db).

(** The rows a page holds: those from [offset] on, at most [limit] of them. *)
Definition page_length (count limit offset : Z) : Z :=
  Z.min limit (Z.max 0 (count - offset)).

(** A calendar date one year on, same month and day. *)
Definition next_year (t : Time) : Time := mkTime (Year t + 1) (Month t) (Day t).

(** What the schema and the service keep true of the table: ids below the
    next [serial] value, no id twice, calendar dates only. *)
Definition store_ok (db : Repo.Table) : Prop :=
  Repo.fresh_ids db /\ unique_ids db /\ valid_dobs db.

(** The tables the service can produce from the empty one. *)
Inductive reachable : Repo.Table -> Prop :=
  | reach_empty : reachable (Repo.mkTable [] 1)
  | reach_create db fault clock req :
      reachable db -> reachable (snd (Service.CreateUser db fault clock req))
  | reach_update db fault clock id req :
      reachable db -> reachable (snd (Service.UpdateUser db fault clock id req))
  | reach_delete db exec_fault rows_fault id :
      reachable db -> reachable (snd (Service.DeleteUser db exec_fault rows_fault id)).

(** ** The tests of the age rule ([internal/service/user_service_test.go])

    [t.AddDate(years, 0, days)] is [Date(year + years, month, day + days)],
    and [time.Date] counts a day that is out of the month on from the first
    of the month.  The tests read the clock once themselves and once more
    inside [CalculateAge]; both readings are [now] here. *)

(** The calendar day after [t]. *)
Definition next_day (t : Time) : Time :=
  if Day t <? daysIn (Month t) (Year t) then mkTime (Year t) (Month t) (Day t + 1)
  else if Month t <? 12 then mkTime (Year t) (Month t + 1) 1
  else mkTime (Year t + 1) 1 1.

Definition shift_days (k : Z) (t : Time) : Time :=
  if 0 <=? k then Nat.iter (Z.to_nat k) next_day t
  else Nat.iter (Z.to_nat (- k)) prev_day t.

Definition AddDate (years days : Z) (t : Time) : Time :=
  shift_days (Day t - 1 + days) (mkTime (Year t + years) (Month t) 1).

(** [age < expected-1 || age > expected+1] is the failure of a table case. *)
Definition approximately (age expected : Z) : bool :=
  negb ((age <? expected - 1) || (expected + 1 <? age)).

(** [true] when no case of the table reports an error. *)
Definition TestCalculateAge (now : Time) : bool :=
  approximately (CalculateAge now (mkTime 1990 5 10)) 34 &&
  approximately (CalculateAge now (mkTime 1991 12 25)) 33 &&
  approximately (CalculateAge now (mkTime 2025 1 1)) 0 &&
  approximately (CalculateAge now (mkTime 2000 1 1)) 25.

Definition TestCalculateAgeEdgeCases (now : Time) : bool :=
  (CalculateAge now (AddDate (-30) 0 now) =? 30) &&
  (CalculateAge now (AddDate (-30) 1 now) =? 29) &&
  (CalculateAge now (AddDate (-30) (-1) now) =? 30).

(** * Part II: properties *)

(** Closed facts about concrete dates, by evaluation. *)
Ltac by_eval := repeat split; vm_compute; congruence.

(** Case analysis on the integer comparisons of a goal. *)
Ltac zcases :=
  repeat match goal with
  | |- context [Z.ltb ?a ?b] => destruct (Z.ltb_spec a b)
  | |- context [Z.leb ?a ?b] => destruct (Z.leb_spec a b)
  | |- context [Z.eqb ?a ?b] => destruct (Z.eqb_spec a b)
  end.

(** ** Machine integers *)

Lemma int_small z : GoInt.in_int z -> GoInt.int z = z.
Proof.
  unfold GoInt.in_int, GoInt.int, GoInt.wrap. intros H.
  rewrite Z.mod_small by lia. lia.
Qed.

Lemma int32_range z : GoInt.in_int32 (GoInt.int32 z).
Proof.
  unfold GoInt.in_int32, GoInt.int32, GoInt.wrap.
  pose proof (Z.mod_pos_bound (z + 2 ^ (32 - 1)) (2 ^ 32) ltac:(lia)). lia.
Qed.

(** ** The age rule *)

Section AgeRule.

Lemma md_ltb_code (r d : Time) :
  md_ltb (month_day r) (month_day d) =
  (Month r <? Month d) || ((Month r =? Month d) && (Day r <? Day d)).
Proof.
  unfold md_ltb, month_day; simpl.
  destruct (Z.compare_spec (Month r) (Month d)); zcases; simpl; auto; lia.
Qed.

(** Without overflow the code computes the plain difference and decrement. *)
Lemma CalculateAge_exact (r d : Time) :
  - 2 ^ 63 < Year r - Year d < 2 ^ 63 ->
  CalculateAge r d =
  Year r - Year d - (if md_ltb (month_day r) (month_day d) then 1 else 0).
Proof.
  intros H. unfold CalculateAge. rewrite <- md_ltb_code.
  unfold GoInt.sub.
  rewrite (int_small (Year r - Year d)) by (unfold GoInt.in_int; lia).
  destruct (md_ltb _ _).
  - rewrite int_small by (unfold GoInt.in_int; lia). reflexivity.
  - lia.
Qed.

Lemma year_ok_diff (r d : Time) :
  year_ok r -> year_ok d -> - 2 ^ 63 < Year r - Year d < 2 ^ 63.
Proof. unfold year_ok. lia. Qed.

Lemma md_ltb_true (a b : Z * Z) :
  md_ltb a b = true <-> fst a < fst b \/ (fst a = fst b /\ snd a < snd b).
Proof.
  unfold md_ltb.
  destruct (Z.compare_spec (fst a) (fst b)); zcases; intuition (try lia; try discriminate).
Qed.

Lemma md_ltb_false (a b : Z * Z) :
  md_ltb a b = false <-> fst b < fst a \/ (fst a = fst b /\ snd b <= snd a).
Proof.
  unfold md_ltb.
  destruct (Z.compare_spec (fst a) (fst b)); zcases; intuition (try lia; try discriminate).
Qed.

Lemma date_lt_iff (a b : Time) :
  date_lt a b <->
  Year a < Year b \/
  (Year a = Year b /\ md_ltb (month_day a) (month_day b) = true).
Proof.
  unfold date_lt, date_ltb. rewrite md_ltb_true. unfold month_day; simpl.
  zcases; simpl; intuition (try lia; try discriminate).
Qed.

Lemma date_le_iff (a b : Time) :
  date_le a b <->
  Year a < Year b \/
  (Year a = Year b /\ md_ltb (month_day b) (month_day a) = false).
Proof.
  unfold date_le, date_ltb. rewrite md_ltb_false. unfold month_day; simpl.
  zcases; simpl; intuition (try lia; try discriminate).
Qed.

Lemma daysIn_range (m y : Z) : 28 <= daysIn m y <= 31.
Proof. unfold daysIn. destruct (isLeap y); zcases; simpl; lia. Qed.

(** A date of birth after the reference date gives a negative age. *)
Lemma CalculateAge_negative (r d : Time) :
  year_ok r -> year_ok d -> date_lt r d -> CalculateAge r d < 0.
Proof.
  intros Hr Hd Hlt.
  rewrite (CalculateAge_exact r d (year_ok_diff r d Hr Hd)).
  apply date_lt_iff in Hlt as [Hy | [Hy Hmd]].
  - destruct (md_ltb _ _); lia.
  - rewrite Hmd. lia.
Qed.

End AgeRule.

(** C1: the age is the year difference, less one exactly when the reference
    (month, day) is lexicographically before the birthday's (month, day); on
    the birthday itself nothing is subtracted. *)
Theorem CalculateAge_formula (r d : Time) :
  year_ok r -> year_ok d ->
  CalculateAge r d =
    Year r - Year d - (if md_ltb (month_day r) (month_day d) then 1 else 0)
  /\ (month_day r = month_day d -> CalculateAge r d = Year r - Year d).
Proof.
  intros Hr Hd.
  pose proof (CalculateAge_exact r d (year_ok_diff r d Hr Hd)) as E.
  split; [exact E |].
  intros Hmd. rewrite E, Hmd.
  unfold md_ltb. rewrite Z.compare_refl, Z.ltb_irrefl. lia.
Qed.

Lemma CalculateAge_formula_witness :
  CalculateAge (mkTime 2024 5 9) (mkTime 1990 5 10) = 33
  /\ CalculateAge (mkTime 2024 5 10) (mkTime 1990 5 10) = 34.
Proof.
  split.
  - exact (proj1 (CalculateAge_formula (mkTime 2024 5 9) (mkTime 1990 5 10)
                    ltac:(by_eval)
                    ltac:(by_eval))).
  - exact (proj2 (CalculateAge_formula (mkTime 2024 5 10) (mkTime 1990 5 10)
                    ltac:(by_eval)
                    ltac:(by_eval)) eq_refl).
Defined.

(** C6: for a date of birth not after the reference date the age is not
    negative. *)
Theorem CalculateAge_nonneg (r d : Time) :
  year_ok r -> year_ok d -> date_le d r -> 0 <= CalculateAge r d.
Proof.
  intros Hr Hd Hle.
  rewrite (CalculateAge_exact r d (year_ok_diff r d Hr Hd)).
  apply date_le_iff in Hle as [Hy | [Hy Hmd]].
  - destruct (md_ltb _ _); lia.
  - rewrite Hmd. lia.
Qed.

Lemma CalculateAge_nonneg_witness :
  0 <= CalculateAge (mkTime 2024 1 1) (mkTime 2024 1 1).
Proof.
  apply CalculateAge_nonneg.
  - by_eval.
  - by_eval.
  - reflexivity.
Defined.

(** ** The day the age changes *)

Section Birthday.

Lemma prev_day_cases (r : Time) :
  (1 < Day r /\ prev_day r = mkTime (Year r) (Month r) (Day r - 1)) \/
  (Day r <= 1 /\ 1 < Month r /\
   prev_day r = mkTime (Year r) (Month r - 1) (daysIn (Month r - 1) (Year r))) \/
  (Day r <= 1 /\ Month r <= 1 /\ prev_day r = mkTime (Year r - 1) 12 31).
Proof. unfold prev_day. zcases; auto. Qed.

Lemma decrement_cases (r d : Time) :
  (decrement r d = 1 /\ (Month r < Month d \/ (Month r = Month d /\ Day r < Day d))) \/
  (decrement r d = 0 /\ (Month d < Month r \/ (Month r = Month d /\ Day d <= Day r))).
Proof.
  unfold decrement. destruct (md_ltb _ _) eqn:E.
  - left. apply md_ltb_true in E. simpl in E. auto.
  - right. apply md_ltb_false in E. simpl in E. auto.
Qed.

Lemma month_day_eq (r d : Time) :
  month_day r = month_day d <-> Month r = Month d /\ Day r = Day d.
Proof.
  unfold month_day. split.
  - intros H. injection H. auto.
  - intros [-> ->]. reflexivity.
Qed.

(** February is the only month whose length depends on the year. *)
Lemma daysIn_between (m y1 y2 D : Z) :
  daysIn m y1 < D <= daysIn m y2 -> m = 2 /\ D = 29 /\ isLeap y1 = false.
Proof.
  unfold daysIn. destruct (Z.eqb_spec m 2) as [-> | Hm].
  - destruct (isLeap y1), (isLeap y2); intros; repeat split; lia.
  - destruct ((m =? 4) || (m =? 6) || (m =? 9) || (m =? 11)); lia.
Qed.

Lemma daysIn_feb_common (y : Z) : isLeap y = false -> daysIn 2 y = 28.
Proof. unfold daysIn. simpl. intros ->. reflexivity. Qed.

Lemma CalculateAge_decrement (r d : Time) :
  - 2 ^ 63 < Year r - Year d < 2 ^ 63 ->
  CalculateAge r d = Year r - Year d - decrement r d.
Proof. apply CalculateAge_exact. Qed.

(** The day on which the age steps up: the birthday, or 1 March of a common
    year for a date of birth on 29 February. *)
Lemma CalculateAge_step (r d : Time) :
  valid_date d -> valid_date r ->
  - 2 ^ 63 + 1 < Year r - Year d < 2 ^ 63 ->
  (CalculateAge r d = CalculateAge (prev_day r) d <->
   month_day r <> month_day d /\ ~ leap_day_rollover d r).
Proof.
  intros (_ & Hmd & Hdd) (_ & Hmr & Hdr) Hy.
  pose proof (daysIn_range (Month d) (Year d)) as Rd.
  rewrite month_day_eq. unfold leap_day_rollover.
  rewrite (CalculateAge_decrement r d) by lia.
  destruct (decrement_cases r d) as [[-> Hr] | [-> Hr]];
  destruct (prev_day_cases r) as [(Hd1 & E) | [(Hd1 & Hm1 & E) | (Hd1 & Hm1 & E)]];
    rewrite E; rewrite CalculateAge_decrement by (simpl; lia);
    match goal with |- context [decrement ?p d] =>
      destruct (decrement_cases p d) as [[-> Hp] | [-> Hp]] end;
    simpl in Hp |- *.
  all: try lia.
  - (* first of a month, after the birthday's month began *)
    split; [lia |]. intros [Hne Hroll].
    exfalso.
    destruct Hp as [Hp | [Heq Hlt]]; [apply Hne; lia |].
    destruct (daysIn_between (Month d) (Year r) (Year d) (Day d)) as (M2 & D29 & L).
    { rewrite Heq in Hlt. lia. }
    apply Hroll. repeat split; auto; lia.
  - split; [| lia]. intros _. split; [lia |].
    intros (M2 & D29 & M3 & D1 & L).
    destruct Hp as [Hp | [Heq Hle]]; [lia |].
    rewrite M3 in Hle. change (3 - 1) with 2 in Hle.
    rewrite (daysIn_feb_common _ L) in Hle. lia.
Qed.
End Birthday.

(** C2, as stated, fails: a date of birth on 29 February 2000 turns one on
    1 March 2001, a day whose (month, day) is not the birthday's. *)
Lemma birthday_step_counterexample :
  ~ (forall d r : Time,
       valid_date d -> valid_date r -> date_le d r ->
       (CalculateAge r d = CalculateAge (prev_day r) d <->
        month_day r <> month_day d)).
Proof.
  intros H.
  specialize (H (mkTime 2000 2 29) (mkTime 2001 3 1)).
  assert (Hd : valid_date (mkTime 2000 2 29))
    by by_eval.
  assert (Hr : valid_date (mkTime 2001 3 1))
    by by_eval.
  destruct (H Hd Hr eq_refl) as [_ Hback].
  assert (E : CalculateAge (mkTime 2001 3 1) (mkTime 2000 2 29) =
              CalculateAge (prev_day (mkTime 2001 3 1)) (mkTime 2000 2 29))
    by (apply Hback; discriminate).
  vm_compute in E. discriminate E.
Qed.

(** C2, amended: between a valid date of birth and a later valid reference
    date, the age is the same as on the day before exactly when the reference
    day is neither the birthday nor, for a date of birth on 29 February, the
    1 March of a common year. *)
Theorem birthday_step (d r : Time) :
  valid_date d -> valid_date r -> date_le d r ->
  (CalculateAge r d = CalculateAge (prev_day r) d <->
   month_day r <> month_day d /\ ~ leap_day_rollover d r).
Proof.
  intros Hd Hr Hle. apply CalculateAge_step; auto.
  destruct Hd as (Yd & _), Hr as (Yr & _). unfold year_ok in *.
  apply date_le_iff in Hle. lia.
Qed.

Lemma birthday_step_witness :
  (CalculateAge (mkTime 2024 5 10) (mkTime 1990 5 10) =
   CalculateAge (prev_day (mkTime 2024 5 10)) (mkTime 1990 5 10) <->
   month_day (mkTime 2024 5 10) <> month_day (mkTime 1990 5 10) /\
   ~ leap_day_rollover (mkTime 1990 5 10) (mkTime 2024 5 10)).
Proof.
  apply birthday_step.
  - by_eval.
  - by_eval.
  - reflexivity.
Defined.

(** ** The layout *)

Section LayoutFacts.

Lemma digit_range (c : ascii) (x : Z) : Layout.digit c = Some x -> 0 <= x <= 9.
Proof.
  unfold Layout.digit. intros H.
  destruct ((48 <=? Z.of_nat (nat_of_ascii c)) && (Z.of_nat (nat_of_ascii c) <=? 57)) eqn:E;
    [| discriminate].
  injection H as <-. apply andb_true_iff in E as [E1 E2]. lia.
Qed.

Lemma num2_range (a b : ascii) (x : Z) : Layout.num2 a b = Some x -> 0 <= x <= 99.
Proof.
  unfold Layout.num2. intros H.
  destruct (Layout.digit a) eqn:Ea; [| discriminate].
  destruct (Layout.digit b) eqn:Eb; [| discriminate].
  injection H as <-.
  apply digit_range in Ea, Eb. lia.
Qed.

Lemma num4_range (a b c d : ascii) (x : Z) :
  Layout.num4 a b c d = Some x -> 0 <= x <= 9999.
Proof.
  unfold Layout.num4. intros H.
  destruct (Layout.num2 a b) eqn:Ea; [| discriminate].
  destruct (Layout.num2 c d) eqn:Eb; [| discriminate].
  injection H as <-.
  apply num2_range in Ea, Eb. lia.
Qed.

(** Every string [time.Parse] accepts is a calendar date of the years 0 to 9999. *)
Lemma Parse_valid (s : string) (t : Time) :
  Layout.Parse s = Some t -> valid_date t /\ 0 <= Year t <= 9999.
Proof.
  unfold Layout.Parse. intros H.
  repeat match type of H with
  | match ?x with EmptyString => _ | String _ _ => _ end = _ =>
      destruct x; try discriminate
  end.
  repeat match type of H with
  | match ?x with Some _ => _ | None => _ end = _ =>
      destruct x eqn:?; try discriminate
  end.
  match type of H with (if ?b then _ else _) = _ => destruct b eqn:Eb end;
    [| discriminate].
  injection H as <-.
  repeat (apply andb_true_iff in Eb as [Eb ?]).
  match goal with
  | Hy : Layout.num4 _ _ _ _ = Some _ |- _ => apply num4_range in Hy
  end.
  unfold valid_date, year_ok; simpl. lia.
Qed.

End LayoutFacts.

(** ** The store *)

Section Store.

Lemma find_app_fresh (l : list User) (u : User) :
  Forall (fun v => ID v < ID u) l ->
  find (Repo.has_id (ID u)) (l ++ [u]) = Some u.
Proof.
  induction 1 as [| v l Hv _ IH]; simpl.
  - unfold Repo.has_id. rewrite Z.eqb_refl. reflexivity.
  - unfold Repo.has_id at 1. destruct (Z.eqb_spec (ID v) (ID u)); [lia | exact IH].
Qed.

Lemma filter_others_absent (id : Z) (l : list User) :
  find (Repo.has_id id) l = None ->
  filter (fun u => Repo.has_id id u = false) l = l /\
  filter (fun u => Repo.has_id id u = true) l = [].
Proof.
  induction l as [| u l IH]; simpl; [auto |].
  destruct (Repo.has_id id u) eqn:E; [discriminate |].
  intros H. destruct (IH H) as [IH1 IH2].
  rewrite filter_cons_True by exact E.
  rewrite filter_cons_False by congruence.
  rewrite IH1, IH2. auto.
Qed.

Lemma filter_present (id : Z) (l : list User) (u : User) :
  find (Repo.has_id id) l = Some u ->
  filter (fun u => Repo.has_id id u = true) l <> [].
Proof.
  induction l as [| v l IH]; simpl; [discriminate |].
  destruct (Repo.has_id id v) eqn:E.
  - intros _. rewrite filter_cons_True by exact E. discriminate.
  - intros H. rewrite filter_cons_False by congruence. auto.
Qed.

Lemma find_filter_others (id : Z) (l : list User) :
  find (Repo.has_id id) (filter (fun u => Repo.has_id id u = false) l) = None.
Proof.
  induction l as [| v l IH]; simpl; [reflexivity |].
  destruct (Repo.has_id id v) eqn:E.
  - rewrite filter_cons_False by congruence. exact IH.
  - rewrite filter_cons_True by exact E. simpl. rewrite E. exact IH.
Qed.

(** Deleting an id the table does not hold: [sql.ErrNoRows], table unchanged. *)
Lemma Delete_absent (db : Repo.Table) (id : Z) :
  find (Repo.has_id id) (Repo.rows db) = None ->
  Repo.Delete db None None id = (Some sql_ErrNoRows, db).
Proof.
  intros H. unfold Repo.Delete.
  destruct (filter_others_absent id _ H) as [-> ->]. simpl.
  destruct db; reflexivity.
Qed.

Lemma Delete_present (db : Repo.Table) (id : Z) (u : User) :
  find (Repo.has_id id) (Repo.rows db) = Some u ->
  Repo.Delete db None None id =
  (None, Repo.mkTable (filter (fun u => Repo.has_id id u = false) (Repo.rows db))
                      (Repo.next_id db)).
Proof.
  intros H. unfold Repo.Delete.
  pose proof (filter_present id _ u H) as Hne.
  destruct (filter (fun u => Repo.has_id id u = true) (Repo.rows db));
    [congruence | reflexivity].
Qed.

End Store.

(** ** The service *)

Section ServiceFacts.

Lemma GetUser_found (db : Repo.Table) (now : Time) (id : Z) (user : User) :
  find (Repo.has_id id) (Repo.rows db) = Some user ->
  Service.GetUser db None now id =
  Ok (mkUserResponse (ID user) (Name user) (Layout.Format (DOB user))
        (Some (CalculateAge now (DOB user)))).
Proof. intros H. unfold Service.GetUser, Repo.GetById. rewrite H. reflexivity. Qed.

Lemma CreateUser_stores (db : Repo.Table) (clock : Z) (req : CreateUserRequest)
    (d : Time) :
  Repo.fresh_ids db -> Layout.Parse (create_DOB req) = Some d ->
  let user := mkUser (Repo.next_id db) (create_Name req) d clock clock in
  let db' := Repo.mkTable (Repo.rows db ++ [user]) (Repo.next_id db + 1) in
  Service.CreateUser db None clock req =
    (Ok (mkUserResponse (ID user) (Name user) (Layout.Format (DOB user)) None), db')
  /\ find (Repo.has_id (ID user)) (Repo.rows db') = Some user.
Proof.
  intros Hfresh Hparse user db'.
  unfold Service.CreateUser. rewrite Hparse. simpl. split; [reflexivity |].
  apply (find_app_fresh (Repo.rows db) user). exact Hfresh.
Qed.

End ServiceFacts.

(** C9: a date of birth after the reference date gives a negative age, and
    the service stores such a date and reports the negative age on get. *)
Theorem future_dob_negative_age (now d : Time) :
  year_ok now -> year_ok d -> date_lt now d ->
  CalculateAge now d < 0
  /\ (forall (db : Repo.Table) (id : Z) (user : User),
        find (Repo.has_id id) (Repo.rows db) = Some user -> DOB user = d ->
        exists got age,
          Service.GetUser db None now id = Ok got /\
          resp_Age got = Some age /\ age < 0)
  /\ (forall (db : Repo.Table) (clock : Z) (req : CreateUserRequest),
        Repo.fresh_ids db -> Layout.Parse (create_DOB req) = Some d ->
        exists created db' got age,
          Service.CreateUser db None clock req = (Ok created, db') /\
          Service.GetUser db' None now (resp_ID created) = Ok got /\
          resp_Age got = Some age /\ age < 0).
Proof.
  intros Hnow Hd Hlt.
  pose proof (CalculateAge_negative now d Hnow Hd Hlt) as Hneg.
  split; [exact Hneg |]. split.
  - intros db id user Hfind Hdob.
    eexists _, _. split; [exact (GetUser_found db now id user Hfind) |].
    split; [reflexivity |]. rewrite Hdob. exact Hneg.
  - intros db clock req Hfresh Hparse.
    destruct (CreateUser_stores db clock req d Hfresh Hparse) as [Hc Hf].
    eexists _, _, _, _. split; [exact Hc |].
    split; [exact (GetUser_found _ now _ _ Hf) |].
    split; [reflexivity | exact Hneg].
Qed.

Lemma future_dob_negative_age_witness :
  CalculateAge (mkTime 2024 1 1) (mkTime 2999 1 1) < 0
  /\ (exists created db' got age,
        Service.CreateUser (Repo.mkTable [] 1) None 0
          (mkCreateUserRequest "Bob" "2999-01-01") = (Ok created, db') /\
        Service.GetUser db' None (mkTime 2024 1 1) (resp_ID created) = Ok got /\
        resp_Age got = Some age /\ age < 0).
Proof.
  destruct (future_dob_negative_age (mkTime 2024 1 1) (mkTime 2999 1 1)
              ltac:(by_eval) ltac:(by_eval) eq_refl) as (H1 & _ & H3).
  split; [exact H1 |].
  apply (H3 (Repo.mkTable [] 1) 0 (mkCreateUserRequest "Bob" "2999-01-01")).
  - constructor.
  - reflexivity.
Defined.

(** ** Which responses carry an age *)

Section AgeField.


Lemma json_age_field (u : UserResponse) :
  match Handler.json_of_UserResponse u with
  | JObj fields => fields !! "age" = JNum <$> resp_Age u
  | _ => False
  end.
Proof.
  unfold Handler.json_of_UserResponse.
  destruct (resp_Age u); simpl.
  - apply lookup_insert_eq.
  - reflexivity.
Qed.

End AgeField.

(** C4: get and list responses carry the age, create and update responses
    leave it out; in the JSON body the member "age" is there exactly when
    the field is set. *)
Theorem age_field_presence :
  (forall db fault now id resp,
     Service.GetUser db fault now id = Ok resp ->
     exists age, resp_Age resp = Some age)
  /\ (forall db db_count list_fault count_fault now params res,
        Service.ListUsers db db_count list_fault count_fault now params = Ok res ->
        Forall (fun u => exists age, resp_Age u = Some age) (Users res))
  /\ (forall db fault clock req resp db',
        Service.CreateUser db fault clock req = (Ok resp, db') ->
        resp_Age resp = None)
  /\ (forall db fault clock id req resp db',
        Service.UpdateUser db fault clock id req = (Ok resp, db') ->
        resp_Age resp = None)
  /\ (forall u fields,
        Handler.json_of_UserResponse u = JObj fields ->
        fields !! "age" = JNum <$> resp_Age u).
Proof.
  repeat split.
  - intros db fault now id resp. unfold Service.GetUser.
    destruct (Repo.GetById db fault id) as [[user |] |]; try discriminate.
    intros H. injection H as <-. simpl. eauto.
  - intros db db_count lf cf now params res. unfold Service.ListUsers.
    destruct (Repo.List _ _ _ _) as [users |]; [| discriminate].
    destruct (Repo.Count _ _) as [total |]; [| discriminate].
    intros H. injection H as <-. simpl.
    apply Forall_forall. intros u Hu.
    apply list_elem_of_In, in_map_iff in Hu as (user & <- & _).
    simpl. eauto.
  - intros db fault clock req resp db'. unfold Service.CreateUser.
    destruct (Layout.Parse _); [| discriminate].
    destruct (Repo.Create _ _ _ _ _) as [[user |] db'']; [| discriminate].
    intros H. injection H as <- _. reflexivity.
  - intros db fault clock id req resp db'. unfold Service.UpdateUser.
    destruct (Layout.Parse _); [| discriminate].
    destruct (Repo.Update _ _ _ _ _ _) as [[[user |] |] db'']; try discriminate.
    intros H. injection H as <- _. reflexivity.
  - intros u fields H. pose proof (json_age_field u) as J.
    rewrite H in J. exact J.
Qed.

Lemma age_field_presence_witness :
  let alice := mkUser 1 "Alice" (mkTime 1990 5 10) 0 0 in
  let db := Repo.mkTable [alice] 2 in
  let now := mkTime 2024 5 9 in
  let seen := mkUserResponse 1 "Alice" "1990-05-10" (Some 33) in
  (Service.GetUser db None now 1 = Ok seen /\
   exists age, resp_Age seen = Some age)
  /\ (Service.ListUsers db db None None now (mkPaginationParams 0 0) =
        Ok (mkUserListResponse [seen] 1 1 10 1) /\
      Forall (fun u => exists age, resp_Age u = Some age) [seen])
  /\ (Service.CreateUser db None 7 (mkCreateUserRequest "Bob" "2000-01-02") =
        (Ok (mkUserResponse 2 "Bob" "2000-01-02" None),
         Repo.mkTable [alice; mkUser 2 "Bob" (mkTime 2000 1 2) 7 7] 3) /\
      resp_Age (mkUserResponse 2 "Bob" "2000-01-02" None) = None)
  /\ (Service.UpdateUser db None 7 1 (mkUpdateUserRequest "Alicia" "1991-03-15") =
        (Ok (mkUserResponse 1 "Alicia" "1991-03-15" None),
         Repo.mkTable [mkUser 1 "Alicia" (mkTime 1991 3 15) 0 7] 2) /\
      resp_Age (mkUserResponse 1 "Alicia" "1991-03-15" None) = None).
Proof.
  intros alice db now seen.
  destruct age_field_presence as (Hget & Hlist & Hcreate & Hupdate & _).
  assert (G : Service.GetUser db None now 1 = Ok seen) by (vm_compute; reflexivity).
  assert (L : Service.ListUsers db db None None now (mkPaginationParams 0 0) =
              Ok (mkUserListResponse [seen] 1 1 10 1)) by (vm_compute; reflexivity).
  assert (C : Service.CreateUser db None 7 (mkCreateUserRequest "Bob" "2000-01-02") =
              (Ok (mkUserResponse 2 "Bob" "2000-01-02" None),
               Repo.mkTable [alice; mkUser 2 "Bob" (mkTime 2000 1 2) 7 7] 3))
    by (vm_compute; reflexivity).
  assert (U : Service.UpdateUser db None 7 1 (mkUpdateUserRequest "Alicia" "1991-03-15") =
              (Ok (mkUserResponse 1 "Alicia" "1991-03-15" None),
               Repo.mkTable [mkUser 1 "Alicia" (mkTime 1991 3 15) 0 7] 2))
    by (vm_compute; reflexivity).
  split; [exact (conj G (Hget _ _ _ _ _ G)) |].
  split; [exact (conj L (Hlist _ _ _ _ _ _ _ L)) |].
  split; [exact (conj C (Hcreate _ _ _ _ _ _ C)) |].
  exact (conj U (Hupdate _ _ _ _ _ _ _ U)).
Defined.

(** ** Deleting *)

Section Deleting.

Lemma DeleteUser_absent (db : Repo.Table) (id : Z) :
  find (Repo.has_id id) (Repo.rows db) = None ->
  Service.DeleteUser db None None id = (Some ErrUserNotFound, db).
Proof.
  intros H. unfold Service.DeleteUser. rewrite (Delete_absent db id H).
  reflexivity.
Qed.

(** A failure of the statement leaves the table alone; it is passed on,
    except that an error whose text is that of [sql.ErrNoRows] is taken for
    it, since [DeleteUser] compares the text. *)
Lemma DeleteUser_exec_failure (db : Repo.Table) (rows_fault : option string)
    (id : Z) (msg : string) :
  Service.DeleteUser db (Some msg) rows_fault id =
  (Some (if String.eqb msg "sql: no rows in result set"
         then ErrUserNotFound else DriverError msg), db).
Proof.
  unfold Service.DeleteUser, Repo.Delete. simpl.
  now destruct (String.eqb msg _).
Qed.

End Deleting.




(** ** The request id *)

Section RequestId.

Variables (db : Repo.Table) (fault : option string) (now : Time).

(** The get handler answers with the user, or with a status of 400, 404 or
    500 and a body that holds an error message only. *)
Lemma GetUser_handler_cases (c : Ctx) :
  (exists user,
     Handler.GetUser db fault now c =
     Fiber.JSON c (Handler.json_of_UserResponse user))
  \/ (exists code msg,
        (code = 400 \/ code = 404 \/ code = 500) /\
        Handler.GetUser db fault now c =
        Fiber.JSON (Fiber.Status c code) (Fiber.error_map msg)).
Proof.
  unfold Handler.GetUser.
  destruct (Handler.ParseInt32 _) as [id |].
  - destruct (Service.GetUser _ _ _ _) as [user | err].
    + left. eauto.
    + right. destruct (is_ErrUserNotFound err).
      * exists 404, "User not found". auto.
      * exists 500, "Failed to get user". auto.
  - right. exists 400, "Invalid user ID". auto.
Qed.

Lemma RequestID_headers (uuid : string) (headers params : gmap string string)
    (query : option PaginationParams) :
  resp_headers
    (Middleware.RequestID uuid (Handler.GetUser db fault now)
       (Fiber.request headers params query)) =
  <["Content-Type" := "application/json"]>
    {[ "X-Request_ID" := chosen_id uuid headers ]}.
Proof.
  unfold Middleware.RequestID.
  match goal with |- resp_headers (Handler.GetUser _ _ _ ?c) = _ =>
    destruct (GetUser_handler_cases c) as [(user & ->) | (code & msg & _ & ->)]
  end; reflexivity.
Qed.

Lemma RequestID_locals (uuid : string) (headers params : gmap string string)
    (query : option PaginationParams) :
  locals
    (Middleware.RequestID uuid (Handler.GetUser db fault now)
       (Fiber.request headers params query)) !! "requestID" =
  Some (chosen_id uuid headers).
Proof.
  unfold Middleware.RequestID.
  match goal with |- locals (Handler.GetUser _ _ _ ?c) !! _ = _ =>
    destruct (GetUser_handler_cases c) as [(user & ->) | (code & msg & _ & ->)]
  end; simpl; apply lookup_insert_eq.
Qed.

End RequestId.

(** C7, as the code has it: the middleware names the response header
    "X-Request_ID", with an underscore.  A response to a get request carries
    that header and the content type and no other, so none named
    "X-Request-ID"; the value is the caller's id when one was sent and the
    generated one otherwise. *)
Theorem RequestID_header_misnamed (db : Repo.Table) (fault : option string)
    (now : Time) (uuid : string) (headers params : gmap string string)
    (query : option PaginationParams) :
  let resp := Middleware.RequestID uuid (Handler.GetUser db fault now)
                (Fiber.request headers params query) in
  resp_headers resp !! "X-Request-ID" = None
  /\ resp_headers resp !! "X-Request_ID" = Some (chosen_id uuid headers)
  /\ dom (resp_headers resp) = {[ "Content-Type"; "X-Request_ID" ]}.
Proof.
  intros resp. unfold resp. rewrite RequestID_headers.
  split; [reflexivity |]. split; [reflexivity |].
  rewrite dom_insert_L, dom_singleton_L. reflexivity.
Qed.

(** The global error handler does put the request id into the body. *)
Lemma ErrorHandler_envelope (c : Ctx) (err : Middleware.handler_error) :
  (exists msg, Fiber.body_field (Middleware.ErrorHandler c err) "error" = Some (JStr msg))
  /\ Fiber.body_field (Middleware.ErrorHandler c err) "request_id" =
     Some (JStr (default "" (locals c !! "requestID"))).
Proof.
  unfold Middleware.ErrorHandler, Fiber.body_field.
  destruct err; simpl; split; eauto.
Qed.

(** C8, as the code has it: an error answer of the get handler, behind the
    request-id middleware, has a body with an "error" member and no
    "request_id" member, although the id is at hand in the context. *)
Theorem handler_error_without_request_id (db : Repo.Table)
    (fault : option string) (now : Time) (uuid : string)
    (headers params : gmap string string) (query : option PaginationParams) :
  let resp := Middleware.RequestID uuid (Handler.GetUser db fault now)
                (Fiber.request headers params query) in
  Fiber.is_2xx (resp_status resp) = false ->
  (exists msg, Fiber.body_field resp "error" = Some (JStr msg))
  /\ Fiber.body_field resp "request_id" = None
  /\ locals resp !! "requestID" = Some (chosen_id uuid headers).
Proof.
  intros resp H.
  split; [| split; [| apply RequestID_locals]]; revert H; unfold resp, Middleware.RequestID;
    match goal with |- context [Handler.GetUser _ _ _ ?c] =>
      destruct (GetUser_handler_cases db fault now c)
        as [(user & ->) | (code & msg & _ & ->)]
    end; simpl; try discriminate; intros _.
  - exists msg. reflexivity.
  - reflexivity.
Qed.

Lemma handler_error_without_request_id_witness :
  let resp := Middleware.RequestID "550e8400" 
                (Handler.GetUser (Repo.mkTable [] 1) None (mkTime 2024 1 1))
                (Fiber.request {[ "X-Request-ID" := "abc" ]} {[ "id" := "42" ]} None) in
  resp_status resp = 404
  /\ (exists msg, Fiber.body_field resp "error" = Some (JStr msg))
  /\ Fiber.body_field resp "request_id" = None
  /\ locals resp !! "requestID" = Some "abc".
Proof.
  intros resp.
  split; [reflexivity |].
  exact (handler_error_without_request_id (Repo.mkTable [] 1) None (mkTime 2024 1 1)
           "550e8400" {[ "X-Request-ID" := "abc" ]} {[ "id" := "42" ]} None eq_refl).
Defined.

(** ** The row offset *)

Section Offset.

Lemma wrap_congruent (w z : Z) : 0 < w -> (2 ^ w | GoInt.wrap w z - z).
Proof.
  intros Hw. unfold GoInt.wrap.
  exists (- ((z + 2 ^ (w - 1)) / 2 ^ w)).
  pose proof (Z.div_mod (z + 2 ^ (w - 1)) (2 ^ w) ltac:(lia)). lia.
Qed.

Lemma divide_32_64 : (2 ^ 32 | 2 ^ 64).
Proof. exists (2 ^ 32). reflexivity. Qed.

(** The offset is the product (page - 1) * page_size up to a multiple of
    2^32, and it is a 32-bit value. *)
Lemma GetOffset_congruent (p : PaginationParams) :
  (2 ^ 32 | GetOffset p - (Page p - 1) * PageSize p)
  /\ GoInt.in_int32 (GetOffset p).
Proof.
  split; [| apply int32_range].
  unfold GetOffset, GoInt.mul, GoInt.sub, GoInt.int32, GoInt.int.
  set (a := GoInt.wrap 64 (Page p - 1)).
  set (b := GoInt.wrap 64 (a * PageSize p)).
  pose proof (wrap_congruent 32 b ltac:(lia)) as H1.
  pose proof (Z.divide_trans _ _ _ divide_32_64 (wrap_congruent 64 (a * PageSize p) ltac:(lia))) as H2.
  pose proof (Z.divide_trans _ _ _ divide_32_64 (wrap_congruent 64 (Page p - 1) ltac:(lia))) as H3.
  fold a in H3. fold b in H2.
  apply (Z.divide_mul_l _ _ (PageSize p)) in H3.
  replace (GoInt.wrap 32 b - (Page p - 1) * PageSize p)
    with ((GoInt.wrap 32 b - b) + (b - a * PageSize p) + ((a - (Page p - 1)) * PageSize p))
    by ring.
  apply Z.divide_add_r; [apply Z.divide_add_r; [exact H1 | exact H2] | exact H3].
Qed.

End Offset.

(** C10: page 67108864 with page size 100 passes the validation of the
    paging parameters, and its offset, (page - 1) * page_size = 6710886300
    cut to 32 bits, is 6710886300 - 2 * 2^32 = -1879048292; so some valid
    page and page size in 1..100 give a negative offset. *)
Theorem offset_wraps_negative :
  let p := mkPaginationParams 67108864 100 in
  validate_PaginationParams p = true
  /\ SetDefaults p = p
  /\ (Page p - 1) * PageSize p = 6710886300
  /\ GetOffset p = (Page p - 1) * PageSize p - 2 * 2 ^ 32
  /\ GetOffset p = -1879048292
  /\ (exists q : PaginationParams,
        validate_PaginationParams q = true /\ 1 <= Page q /\
        1 <= PageSize q <= 100 /\
        (2 ^ 32 | GetOffset q - (Page q - 1) * PageSize q) /\
        GetOffset q <> (Page q - 1) * PageSize q /\
        GetOffset q < 0).
Proof.
  intros p.
  assert (V : validate_PaginationParams p = true) by (vm_compute; reflexivity).
  assert (E : GetOffset p = -1879048292) by (vm_compute; reflexivity).
  assert (M : (Page p - 1) * PageSize p = 6710886300) by (vm_compute; reflexivity).
  split; [exact V |].
  split; [vm_compute; reflexivity |].
  split; [exact M |].
  split; [rewrite E, M; vm_compute; reflexivity |].
  split; [exact E |].
  exists p.
  split; [exact V |].
  split; [by_eval |].
  split; [by_eval |].
  split; [apply GetOffset_congruent |].
  rewrite E, M. split; [discriminate | reflexivity].
Qed.

(** With that offset the list query is refused by the store and the list
    handler answers 500. *)
Lemma ListUsers_negative_offset (db db_count : Repo.Table) (now : Time)
    (headers params : gmap string string) :
  resp_status
    (Handler.ListUsers db db_count None None now
       (Fiber.request headers params (Some (mkPaginationParams 67108864 100)))) = 500.
Proof. vm_compute. reflexivity. Qed.

(** ** The page count

    [total_pages] goes through [float64]: conversion, division, [math.Ceil]
    and conversion back.  The lemmas follow the Standard Library's
    executable specification of binary64 step by step. *)

Section Ceiling.

Lemma ceil_div_bounds (t s c : Z) :
  0 < s -> (c - 1) * s < t <= c * s -> ceil_div t s = c.
Proof.
  intros Hs H. unfold ceil_div.
  assert (E : (- t) / s = - c); [| lia].
  symmetry. apply (Z.div_unique (- t) s (- c) (c * s - t)); lia.
Qed.

Lemma ceil_div_spec (t s : Z) :
  0 < s -> (ceil_div t s - 1) * s < t <= ceil_div t s * s.
Proof.
  intros Hs. unfold ceil_div.
  pose proof (Z.div_mod (- t) s ltac:(lia)).
  pose proof (Z.mod_pos_bound (- t) s Hs). nia.
Qed.

Lemma rne_div_scale (c n d : Z) :
  0 < c -> 0 < d -> rne_div (c * n) (c * d) = rne_div n d.
Proof.
  intros Hc Hd. unfold rne_div.
  rewrite Z.div_mul_cancel_l by lia.
  rewrite Zmult_mod_distr_l.
  replace (2 * (c * (n mod d))) with (c * (2 * (n mod d))) by ring.
  rewrite <- Zmult_compare_compat_l by lia. reflexivity.
Qed.

Lemma rne_div_range (n d : Z) : 0 < d -> n / d <= rne_div n d <= n / d + 1.
Proof.
  intros Hd. unfold rne_div.
  destruct (_ ?= _); [destruct (Z.even _) | |]; lia.
Qed.

Lemma rne_div_exact (n d : Z) : 0 < d -> n mod d = 0 -> rne_div n d = n / d.
Proof.
  intros Hd H. unfold rne_div. rewrite H.
  destruct (Z.compare_spec (2 * 0) d); try lia.
Qed.

Lemma rne_div_up (n d : Z) : 0 < d -> d < 2 * (n mod d) -> rne_div n d = n / d + 1.
Proof.
  intros Hd H. unfold rne_div.
  destruct (Z.compare_spec (2 * (n mod d)) d); lia.
Qed.

(** Rounding [t * 2^k / s] to 53 bits and taking the ceiling gives the
    ceiling of [t / s], as long as [t] itself has at most 53 bits. *)
Lemma ceil_rne (t s k : Z) :
  0 < t < 2 ^ 53 -> 0 < s -> 0 <= k ->
  2 ^ 52 <= (t * 2 ^ k) / s ->
  ceil_div (rne_div (t * 2 ^ k) s) (2 ^ k) = ceil_div t s.
Proof.
  intros Ht Hs Hk Hq.
  assert (Hp : 0 < 2 ^ k) by (apply Z.pow_pos_nonneg; lia).
  set (P := 2 ^ k) in *.
  pose proof (Z.div_mod t s ltac:(lia)) as Et.
  pose proof (Z.mod_pos_bound t s Hs) as Bt.
  set (F := t / s) in *. set (rt := t mod s) in *.
  pose proof (Z.div_mod (t * P) s ltac:(lia)) as EQ.
  pose proof (Z.mod_pos_bound (t * P) s Hs) as BQ.
  pose proof (rne_div_range (t * P) s Hs) as Rg.
  destruct (Z.eq_dec rt 0) as [Z0 | NZ].
  - (* s divides t *)
    assert (Ediv : (t * P) / s = F * P).
    { symmetry. apply (Z.div_unique (t * P) s (F * P) 0); nia. }
    assert (Emod : (t * P) mod s = 0) by nia.
    rewrite rne_div_exact, Ediv by assumption.
    rewrite (ceil_div_bounds (F * P) P F), (ceil_div_bounds t s F); nia.
  - (* s does not divide t *)
    assert (HF : ceil_div t s = F + 1) by (apply ceil_div_bounds; nia).
    rewrite HF. apply ceil_div_bounds; [exact Hp |].
    set (Q := (t * P) / s) in *. set (R := (t * P) mod s) in *.
    replace (F + 1 - 1) with F by lia.
    split.
    + (* the rounded value lies above [F] *)
      destruct (Z_lt_le_dec (F * P) Q) as [Hlt | Hge]; [lia |].
      assert (EQF : Q = F * P) by nia.
      assert (ER : R = rt * P) by nia.
      assert (HS : s < 2 * P) by nia.
      rewrite rne_div_up; [lia | lia |].
      fold R. nia.
    + assert (Q < (F + 1) * P) by nia. lia.
Qed.

End Ceiling.

Section Digits.

Lemma digits2_pos_bounds (p : positive) :
  2 ^ (Zpos (digits2_pos p) - 1) <= Zpos p < 2 ^ Zpos (digits2_pos p).
Proof.
  induction p as [p IH | p IH |]; simpl digits2_pos.
  - rewrite Pos2Z.inj_succ.
    replace (Z.succ (Zpos (digits2_pos p)) - 1) with (Z.succ (Zpos (digits2_pos p) - 1)) by lia.
    rewrite !Z.pow_succ_r by lia. lia.
  - rewrite Pos2Z.inj_succ.
    replace (Z.succ (Zpos (digits2_pos p)) - 1) with (Z.succ (Zpos (digits2_pos p) - 1)) by lia.
    rewrite !Z.pow_succ_r by lia. lia.
  - simpl. lia.
Qed.

Lemma digits2_pos_unique (p : positive) (d : Z) :
  2 ^ (d - 1) <= Zpos p < 2 ^ d -> Zpos (digits2_pos p) = d.
Proof.
  intros H. pose proof (digits2_pos_bounds p) as B.
  set (e := Zpos (digits2_pos p)) in *.
  assert (0 < e) by (unfold e; lia).
  destruct (Z_lt_le_dec d 1) as [Hd | Hd].
  { assert (2 ^ d <= 2 ^ 0) by (destruct (Z_lt_le_dec d 0);
      [rewrite Z.pow_neg_r by lia; simpl; lia | apply Z.pow_le_mono_r; lia]).
    simpl in *. lia. }
  destruct (Z.lt_trichotomy e d) as [L | [E | G]]; [| exact E |].
  - assert (2 ^ e <= 2 ^ (d - 1)) by (apply Z.pow_le_mono_r; lia). lia.
  - assert (2 ^ d <= 2 ^ (e - 1)) by (apply Z.pow_le_mono_r; lia). lia.
Qed.

Lemma iter_xO (p k : positive) : Zpos (Pos.iter xO p k) = Zpos p * 2 ^ Zpos k.
Proof.
  induction k as [| k IH] using Pos.peano_ind.
  - simpl. lia.
  - rewrite Pos.iter_succ, Pos2Z.inj_succ, Z.pow_succ_r by lia.
    rewrite Pos2Z.inj_xO, IH. ring.
Qed.

End Digits.

Section Rounding.

Local Abbreviation fexp64 := (fexp Float64.prec Float64.emax).

Lemma fexp64_normal (e : Z) : -1021 <= e -> fexp64 e = e - 53.
Proof. unfold fexp, emin, Float64.prec, Float64.emax. lia. Qed.

Lemma Zdigits2_bits (q d : Z) : 0 < d -> 2 ^ (d - 1) <= q < 2 ^ d -> Zdigits2 q = d.
Proof.
  intros Hd H.
  assert (0 < 2 ^ (d - 1)) by (apply Z.pow_pos_nonneg; lia).
  destruct q as [| p | p]; try lia.
  simpl. apply digits2_pos_unique. exact H.
Qed.

Lemma round_nearest_even_range (q : Z) (l : location) :
  q <= round_nearest_even q l <= q + 1.
Proof.
  unfold round_nearest_even.
  destruct l as [| []]; try destruct (Z.even q); lia.
Qed.

Lemma shr_m_of_loc (q : Z) (l : location) : shr_m (shr_record_of_loc q l) = q.
Proof. destruct l as [| []]; reflexivity. Qed.

Lemma loc_of_shr_record_of_loc (q : Z) (l : location) :
  loc_of_shr_record (shr_record_of_loc q l) = l.
Proof. destruct l as [| []]; reflexivity. Qed.

Lemma shr_fexp_53 (q e : Z) (l : location) :
  2 ^ 52 <= q < 2 ^ 53 -> -1074 <= e ->
  shr_fexp Float64.prec Float64.emax q e l = (shr_record_of_loc q l, e).
Proof.
  intros Hq He. unfold shr_fexp.
  rewrite (Zdigits2_bits q 53) by (simpl; lia).
  rewrite fexp64_normal by lia.
  replace (53 + e - 53 - e) with 0 by lia. reflexivity.
Qed.

Lemma shr_fexp_54 (q e : Z) (l : location) :
  2 ^ 53 <= q < 2 ^ 54 -> -1074 <= e ->
  shr_fexp Float64.prec Float64.emax q e l = (shr_1 (shr_record_of_loc q l), e + 1).
Proof.
  intros Hq He. unfold shr_fexp.
  rewrite (Zdigits2_bits q 54) by (simpl; lia).
  rewrite fexp64_normal by lia.
  replace (54 + e - 53 - e) with 1 by lia. reflexivity.
Qed.

Lemma finish_round (m e : Z) :
  2 ^ 52 <= m <= 2 ^ 53 -> -1074 <= e <= 969 ->
  (let '(mrs, e') := shr_fexp Float64.prec Float64.emax m e loc_Exact in
   match shr_m mrs with
   | Z0 => S754_zero false
   | Zpos m' =>
       if e' <=? Float64.emax - Float64.prec then S754_finite false m' e'
       else S754_infinity false
   | Zneg _ => S754_nan
   end) = pack m e.
Proof.
  intros Hm He. unfold pack.
  destruct (Z.ltb_spec m (2 ^ 53)) as [Hlt | Hge].
  - rewrite shr_fexp_53 by lia. simpl shr_m.
    destruct m as [| p | p]; try lia.
    replace (e <=? Float64.emax - Float64.prec) with true
      by (symmetry; apply Z.leb_le; unfold Float64.emax, Float64.prec; lia).
    reflexivity.
  - assert (m = 2 ^ 53) as -> by lia.
    rewrite shr_fexp_54 by lia.
    replace (e + 1 <=? Float64.emax - Float64.prec) with true
      by (symmetry; apply Z.leb_le; unfold Float64.emax, Float64.prec; lia).
    reflexivity.
Qed.

Lemma binary_round_aux_53 (q e : Z) (l : location) :
  2 ^ 52 <= q < 2 ^ 53 -> -1074 <= e <= 969 ->
  binary_round_aux Float64.prec Float64.emax false q e l =
  pack (round_nearest_even q l) e.
Proof.
  intros Hq He. unfold binary_round_aux.
  rewrite shr_fexp_53 by lia.
  rewrite shr_m_of_loc, loc_of_shr_record_of_loc.
  apply finish_round; [| lia].
  pose proof (round_nearest_even_range q l). lia.
Qed.

Lemma shr_1_half (q : Z) (l : location) :
  0 < q -> shr_m (shr_1 (shr_record_of_loc q l)) = q / 2.
Proof.
  intros Hq. destruct q as [| p | p]; try lia.
  destruct l as [| []], p; simpl shr_m;
    solve [ rewrite Pos2Z.inj_xI; apply (Z.div_unique _ 2 _ 1); lia
          | rewrite Pos2Z.inj_xO; apply (Z.div_unique _ 2 _ 0); lia
          | reflexivity ].
Qed.

Lemma binary_round_aux_54 (q e : Z) (l : location) :
  2 ^ 53 <= q < 2 ^ 54 -> -1074 <= e <= 968 ->
  binary_round_aux Float64.prec Float64.emax false q e l =
  let mrs := shr_1 (shr_record_of_loc q l) in
  pack (round_nearest_even (shr_m mrs) (loc_of_shr_record mrs)) (e + 1).
Proof.
  intros Hq He. unfold binary_round_aux.
  rewrite shr_fexp_54 by lia. cbv zeta.
  apply finish_round; [| lia].
  pose proof (round_nearest_even_range
                (shr_m (shr_1 (shr_record_of_loc q l)))
                (loc_of_shr_record (shr_1 (shr_record_of_loc q l)))) as R.
  rewrite shr_1_half in * by lia.
  assert (2 ^ 52 <= q / 2 < 2 ^ 53); [| lia].
  split; [apply Z.div_le_lower_bound; lia | apply Z.div_lt_upper_bound; lia].
Qed.

End Rounding.

Section Locations.

Lemma new_location_spec (d r : Z) :
  0 < d -> 0 <= r < d ->
  new_location d r = if r =? 0 then loc_Exact else loc_Inexact (2 * r ?= d).
Proof.
  intros Hd Hr. unfold new_location, new_location_even, new_location_odd.
  destruct (Z.even d) eqn:Ev; [reflexivity |].
  destruct (Z.eqb_spec r 0); [reflexivity |]. f_equal.
  assert (Hodd : d mod 2 = 1).
  { rewrite Zmod_odd, <- Z.negb_even, Ev. reflexivity. }
  assert (Hne : 2 * r <> d).
  { intros E. rewrite <- E, Z.mul_comm, Z.mod_mul in Hodd by lia. lia. }
  destruct (Z.compare_spec (2 * r + 1) d), (Z.compare_spec (2 * r) d);
    try reflexivity; lia.
Qed.

Lemma shr_1_fields (q : Z) (l : location) :
  0 < q ->
  shr_1 (shr_record_of_loc q l) =
  Build_shr_record (q / 2) (Z.odd q)
    (match l with loc_Exact => false | loc_Inexact _ => true end).
Proof.
  intros Hq. destruct q as [| p | p]; try lia.
  assert (H2 : forall p', Zpos p'~1 / 2 = Zpos p')
    by (intros p'; symmetry; rewrite Pos2Z.inj_xI; apply (Z.div_unique _ 2 _ 1); lia).
  assert (H0 : forall p', Zpos p'~0 / 2 = Zpos p')
    by (intros p'; symmetry; rewrite Pos2Z.inj_xO; apply (Z.div_unique _ 2 _ 0); lia).
  destruct l as [| []], p; simpl shr_1; rewrite ?H2, ?H0; reflexivity.
Qed.

(** The mantissa kept when the quotient has 53 bits. *)
Lemma round_quotient_53 (n d : Z) :
  0 < d ->
  round_nearest_even (n / d) (new_location d (n mod d)) = rne_div n d.
Proof.
  intros Hd. pose proof (Z.mod_pos_bound n d Hd) as B.
  rewrite new_location_spec by lia. unfold rne_div, round_nearest_even.
  destruct (Z.eqb_spec (n mod d) 0) as [E | NE].
  - rewrite E. destruct (Z.compare_spec (2 * 0) d); try lia.
  - destruct (2 * (n mod d) ?= d); reflexivity.
Qed.

(** The mantissa kept when the quotient has 54 bits and loses its last. *)
Lemma round_quotient_54 (n d : Z) :
  0 < d -> 0 < n / d ->
  let mrs := shr_1 (shr_record_of_loc (n / d) (new_location d (n mod d))) in
  round_nearest_even (shr_m mrs) (loc_of_shr_record mrs) = rne_div n (2 * d).
Proof.
  intros Hd Hq. cbv zeta.
  pose proof (Z.mod_pos_bound n d Hd) as B.
  pose proof (Z.div_mod n d ltac:(lia)) as En.
  set (q := n / d) in *. set (r := n mod d) in *.
  rewrite shr_1_fields by exact Hq. simpl shr_m.
  pose proof (Z.div_mod q 2 ltac:(lia)) as Eq2.
  pose proof (Zmod_odd q) as Eo.
  set (h := q / 2) in *.
  assert (Ediv : n / (2 * d) = h).
  { symmetry. apply (Z.div_unique n (2 * d) h ((q mod 2) * d + r)).
    - left. destruct (Z.odd q); nia.
    - nia. }
  assert (Emod : n mod (2 * d) = (q mod 2) * d + r).
  { symmetry. apply (Z.mod_unique n (2 * d) h ((q mod 2) * d + r)).
    - left. destruct (Z.odd q); nia.
    - nia. }
  unfold rne_div. rewrite Ediv, Emod, Eo.
  rewrite new_location_spec by lia.
  destruct (Z.odd q), (Z.eqb_spec r 0) as [E0 | NE]; simpl loc_of_shr_record;
    unfold round_nearest_even;
    destruct (Z.compare_spec (2 * (1 * d + r)) (2 * d));
    destruct (Z.compare_spec (2 * (0 * d + r)) (2 * d));
    try lia; reflexivity.
Qed.

End Locations.

Section Operations.

Lemma pack_normal (m e : Z) :
  m < 2 ^ 53 -> pack m e = S754_finite false (Z.to_pos m) e.
Proof.
  intros H. unfold pack.
  destruct (Z.ltb_spec m (2 ^ 53)); [reflexivity | lia].
Qed.

(** [float64(t)] is exact for a positive [t] below 2^53: the mantissa is
    [t] shifted up to 53 bits. *)
Lemma of_int_pos (t : Z) :
  0 < t < 2 ^ 53 ->
  exists a, 0 <= a <= 52 /\ 2 ^ 52 <= t * 2 ^ a < 2 ^ 53 /\
    Float64.of_int t = S754_finite false (Z.to_pos (t * 2 ^ a)) (- a).
Proof.
  intros Ht. destruct t as [| p | p]; try lia.
  pose proof (digits2_pos_bounds p) as B.
  set (d := Zpos (digits2_pos p)) in *.
  assert (Hd1 : 1 <= d) by (unfold d; lia).
  assert (Hd : d <= 53).
  { destruct (Z_lt_le_dec 53 d) as [L | L]; [| exact L].
    assert (2 ^ 53 <= 2 ^ (d - 1)) by (apply Z.pow_le_mono_r; lia). lia. }
  exists (53 - d).
  assert (Hb : 2 ^ 52 <= Zpos p * 2 ^ (53 - d) < 2 ^ 53).
  { replace (2 ^ 52) with (2 ^ (d - 1) * 2 ^ (53 - d))
      by (rewrite <- Z.pow_add_r by lia; f_equal; lia).
    replace (2 ^ 53) with (2 ^ d * 2 ^ (53 - d))
      by (rewrite <- Z.pow_add_r by lia; f_equal; lia).
    assert (0 < 2 ^ (53 - d)) by (apply Z.pow_pos_nonneg; lia). nia. }
  split; [lia |]. split; [exact Hb |].
  unfold Float64.of_int, binary_normalize, binary_round, shl_align.
  fold d. rewrite fexp64_normal by lia.
  destruct (d + 0 - 53 - 0) as [| k | k] eqn:E; try lia.
  - assert (d = 53) as Ed by lia. rewrite Ed in *.
    rewrite binary_round_aux_53 by (simpl in Hb; lia).
    simpl round_nearest_even. rewrite pack_normal by lia.
    replace (53 - 53) with 0 by lia. simpl (2 ^ 0). rewrite Z.mul_1_r.
    reflexivity.
  - assert (Ek : Zpos k = 53 - d) by lia.
    rewrite binary_round_aux_53 by (rewrite ?iter_xO, ?Ek; lia).
    simpl round_nearest_even. rewrite iter_xO, Ek.
    rewrite pack_normal by lia. f_equal. lia.
Qed.

(** Dividing two positive normal floats: the quotient of the mantissas,
    the first one shifted by 53 bits, rounded once. *)
Lemma div_normal (mx my : positive) (a b : Z) :
  2 ^ 52 <= Zpos mx < 2 ^ 53 -> 2 ^ 52 <= Zpos my < 2 ^ 53 ->
  0 <= a <= 52 -> 0 <= b <= 52 ->
  Float64.div (S754_finite false mx (- a)) (S754_finite false my (- b)) =
  binary_round_aux Float64.prec Float64.emax false
    ((Zpos mx * 2 ^ 53) / Zpos my) (b - a - 53)
    (new_location (Zpos my) ((Zpos mx * 2 ^ 53) mod Zpos my)).
Proof.
  intros Hx Hy Ha Hb.
  unfold Float64.div, SFdiv, SFdiv_core_binary.
  rewrite !(Zdigits2_bits _ 53) by (simpl; lia).
  rewrite fexp64_normal by lia.
  replace (Z.min (53 + - a - (53 + - b) - 53) (- a - - b)) with (b - a - 53) by lia.
  replace (- a - - b - (b - a - 53)) with 53 by lia.
  rewrite Z.shiftl_mul_pow2 by lia.
  unfold Z.div, Z.modulo.
  destruct (Z.div_eucl (Zpos mx * 2 ^ 53) (Zpos my)) as [q r].
  reflexivity.
Qed.

End Operations.

Section Quotient.

(** The quotient of two converted integers: [t * 2^k / s] rounded to the
    nearest integer, at the exponent [-k] that leaves it 53 bits. *)
Lemma div_of_int (t s : Z) :
  0 < t < 2 ^ 53 -> 0 < s < 2 ^ 53 ->
  exists k, 0 <= k <= 105 /\ 2 ^ 52 <= (t * 2 ^ k) / s < 2 ^ 53 /\
    Float64.div (Float64.of_int t) (Float64.of_int s) =
    pack (rne_div (t * 2 ^ k) s) (- k).
Proof.
  intros Ht Hs.
  destruct (of_int_pos t Ht) as (a & Ha & Hx & ->).
  destruct (of_int_pos s Hs) as (b & Hb & Hy & ->).
  assert (Pa : 0 < 2 ^ a) by (apply Z.pow_pos_nonneg; lia).
  assert (Pb : 0 < 2 ^ b) by (apply Z.pow_pos_nonneg; lia).
  rewrite div_normal by (rewrite ?Z2Pos.id; lia).
  rewrite !Z2Pos.id by lia.
  set (mx := t * 2 ^ a) in *. set (my := s * 2 ^ b) in *.
  pose proof (Z.div_mod (mx * 2 ^ 53) my ltac:(lia)) as En.
  pose proof (Z.mod_pos_bound (mx * 2 ^ 53) my ltac:(lia)) as Bn.
  set (q := (mx * 2 ^ 53) / my) in *.
  assert (Hq : 2 ^ 52 <= q < 2 ^ 54).
  { split.
    - apply Z.div_le_lower_bound; [lia |]. nia.
    - apply Z.div_lt_upper_bound; [lia |]. nia. }
  destruct (Z_lt_le_dec q (2 ^ 53)) as [Hlt | Hge].
  - exists (a + 53 - b).
    assert (Escale : mx * 2 ^ 53 = 2 ^ b * (t * 2 ^ (a + 53 - b))).
    { unfold mx. replace (2 ^ b * (t * 2 ^ (a + 53 - b)))
        with (t * (2 ^ b * 2 ^ (a + 53 - b))) by ring.
      rewrite <- Z.pow_add_r by lia.
      replace (b + (a + 53 - b)) with (a + 53) by lia.
      rewrite Z.pow_add_r by lia. ring. }
    assert (Emy : my = 2 ^ b * s) by (unfold my; ring).
    split; [lia |]. split.
    + rewrite <- (Z.div_mul_cancel_l _ _ (2 ^ b)) by lia.
      rewrite <- Escale, <- Emy. fold q. lia.
    + rewrite binary_round_aux_53 by lia.
      unfold q. rewrite round_quotient_53 by lia.
      rewrite Escale, Emy, rne_div_scale by lia.
      f_equal. lia.
  - exists (a + 52 - b).
    assert (Escale : mx * 2 ^ 53 = 2 ^ (b + 1) * (t * 2 ^ (a + 52 - b))).
    { unfold mx. replace (2 ^ (b + 1) * (t * 2 ^ (a + 52 - b)))
        with (t * (2 ^ (b + 1) * 2 ^ (a + 52 - b))) by ring.
      rewrite <- Z.pow_add_r by lia.
      replace (b + 1 + (a + 52 - b)) with (a + 53) by lia.
      rewrite Z.pow_add_r by lia. ring. }
    assert (Emy : 2 * my = 2 ^ (b + 1) * s).
    { unfold my. rewrite Z.pow_add_r by lia. ring. }
    assert (Pb1 : 0 < 2 ^ (b + 1)) by (apply Z.pow_pos_nonneg; lia).
    assert (Ehalf : (mx * 2 ^ 53) / (2 * my) = q / 2).
    { rewrite (Z.mul_comm 2 my), <- Z.div_div by lia. reflexivity. }
    split; [lia |]. split.
    + rewrite <- (Z.div_mul_cancel_l _ _ (2 ^ (b + 1))) by lia.
      rewrite <- Escale, <- Emy, Ehalf.
      split; [apply Z.div_le_lower_bound; lia | apply Z.div_lt_upper_bound; lia].
    + rewrite binary_round_aux_54 by lia. cbv zeta.
      unfold q. rewrite (round_quotient_54 (mx * 2 ^ 53) my) by (fold q; lia).
      rewrite Emy, Escale, rne_div_scale by lia.
      f_equal. lia.
Qed.

End Quotient.

Section CeilInt.

Lemma to_int_of_int (c : Z) : 0 < c < 2 ^ 53 -> Float64.to_int (Float64.of_int c) = c.
Proof.
  intros Hc. destruct (of_int_pos c Hc) as (a & Ha & Hb & ->).
  assert (Pa : 0 < 2 ^ a) by (apply Z.pow_pos_nonneg; lia).
  unfold Float64.to_int, Float64.signed, cond_Zopp.
  rewrite Z2Pos.id by lia.
  destruct (Z.leb_spec 0 (- a)) as [L | L].
  - assert (a = 0) as -> by lia. simpl (2 ^ (- 0)). simpl (2 ^ 0).
    rewrite !Z.mul_1_r.
    destruct (Z.leb_spec (- 2 ^ 63) c), (Z.ltb_spec c (2 ^ 63)); simpl; lia.
  - rewrite Z.opp_involutive, Z.quot_mul by lia.
    destruct (Z.leb_spec (- 2 ^ 63) c), (Z.ltb_spec c (2 ^ 63)); simpl; lia.
Qed.

Lemma to_int_Ceil_finite (m e : Z) :
  0 < m -> e <= 1 ->
  let c := if 0 <=? e then m * 2 ^ e else ceil_div m (2 ^ (- e)) in
  0 < c < 2 ^ 53 ->
  Float64.to_int (Float64.Ceil (S754_finite false (Z.to_pos m) e)) = c.
Proof.
  intros Hm He c Hc. unfold Float64.Ceil, c in *.
  destruct (Z.leb_spec 0 e) as [L | L].
  - unfold Float64.to_int, Float64.signed, cond_Zopp.
    rewrite Z2Pos.id by lia.
    destruct (Z.leb_spec 0 e); [| lia].
    destruct (Z.leb_spec (- 2 ^ 63) (m * 2 ^ e)), (Z.ltb_spec (m * 2 ^ e) (2 ^ 63));
      simpl; lia.
  - unfold Float64.signed, cond_Zopp. rewrite Z2Pos.id by lia.
    apply to_int_of_int. exact Hc.
Qed.

Lemma ceil_div_scale (c n d : Z) :
  0 < c -> 0 < d -> ceil_div (c * n) (c * d) = ceil_div n d.
Proof.
  intros Hc Hd. unfold ceil_div.
  replace (- (c * n)) with (c * - n) by ring.
  rewrite Z.div_mul_cancel_l by lia. reflexivity.
Qed.

(** Ceiling and conversion of a rounded quotient. *)
Lemma to_int_Ceil_pack (m k : Z) :
  2 ^ 52 <= m <= 2 ^ 53 -> 0 <= k ->
  0 < ceil_div m (2 ^ k) < 2 ^ 53 ->
  Float64.to_int (Float64.Ceil (pack m (- k))) = ceil_div m (2 ^ k).
Proof.
  intros Hm Hk Hc. unfold pack.
  assert (Pk : 0 < 2 ^ k) by (apply Z.pow_pos_nonneg; lia).
  destruct (Z.ltb_spec m (2 ^ 53)) as [Hlt | Hge].
  - rewrite to_int_Ceil_finite; try lia.
    + destruct (Z.leb_spec 0 (- k)); [| rewrite Z.opp_involutive; reflexivity].
      assert (k = 0) as -> by lia. simpl.
      unfold ceil_div. rewrite Z.div_1_r. lia.
    + cbv zeta. destruct (Z.leb_spec 0 (- k)); [| rewrite Z.opp_involutive; exact Hc].
      assert (k = 0) as -> by lia. simpl in *.
      unfold ceil_div in Hc. rewrite Z.div_1_r in Hc. lia.
  - assert (m = 2 ^ 53) as -> by lia.
    destruct (Z.eq_dec k 0) as [-> | NZ].
    { simpl in Hc. unfold ceil_div in Hc. rewrite Z.div_1_r in Hc. lia. }
    assert (E : ceil_div (2 ^ 53) (2 ^ k) = ceil_div (2 ^ 52) (2 ^ (k - 1))).
    { replace (2 ^ 53) with (2 * 2 ^ 52) by reflexivity.
      replace (2 ^ k) with (2 * 2 ^ (k - 1))
        by (rewrite <- Z.pow_succ_r by lia; f_equal; lia).
      apply ceil_div_scale; [lia |]. apply Z.pow_pos_nonneg; lia. }
    rewrite E in *.
    rewrite to_int_Ceil_finite; try lia.
    + destruct (Z.leb_spec 0 (- k + 1)).
      * assert (k = 1) as -> by lia. simpl.
        unfold ceil_div. rewrite Z.div_1_r. lia.
      * replace (- (- k + 1)) with (k - 1) by lia. reflexivity.
    + cbv zeta. destruct (Z.leb_spec 0 (- k + 1)).
      * assert (k = 1) as -> by lia. simpl in *.
        unfold ceil_div in Hc. rewrite Z.div_1_r in Hc. lia.
      * replace (- (- k + 1)) with (k - 1) by lia. exact Hc.
Qed.

End CeilInt.

(** [total_pages] is the exact ceiling as long as the row count has at most
    53 bits. *)
Lemma total_pages_exact (t s : Z) :
  0 <= t < 2 ^ 53 -> 0 < s < 2 ^ 53 ->
  Service.total_pages t s = ceil_div t s.
Proof.
  intros Ht Hs. unfold Service.total_pages.
  destruct (Z.eq_dec t 0) as [-> | NZ].
  - destruct (of_int_pos s Hs) as (b & _ & _ & ->).
    unfold ceil_div. rewrite Z.div_0_l by lia. reflexivity.
  - destruct (div_of_int t s ltac:(lia) Hs) as (k & Hk & Hq & ->).
    pose proof (ceil_rne t s k ltac:(lia) ltac:(lia) ltac:(lia) ltac:(lia)) as E.
    pose proof (rne_div_range (t * 2 ^ k) s ltac:(lia)) as R.
    pose proof (ceil_div_spec t s ltac:(lia)) as Cs.
    assert (Hc : 0 < ceil_div t s < 2 ^ 53) by nia.
    rewrite to_int_Ceil_pack; [exact E | lia | lia |].
    rewrite E. exact Hc.
Qed.

(** C3, as stated, fails: float64 cannot hold 2^53 + 1, so for that many
    rows and page size 1 the page count comes out as 2^53. *)
Lemma total_pages_counterexample :
  ~ (forall t s : Z,
       0 <= t -> 1 <= s <= 100 -> Service.total_pages t s = ceil_div t s).
Proof.
  intros H. specialize (H (2 ^ 53 + 1) 1 ltac:(lia) ltac:(lia)).
  vm_compute in H. discriminate H.
Qed.

(** C3, amended: for a row count [t] with 0 <= t < 2^53 and a page size [s]
    in 1..100 the page count is the ceiling of t / s, the integer c with
    (c - 1) * s < t <= c * s, and [ListUsers] returns it with that count. *)
Theorem total_pages_ceiling (t s : Z) :
  0 <= t < 2 ^ 53 -> 1 <= s <= 100 ->
  Service.total_pages t s = ceil_div t s
  /\ (Service.total_pages t s - 1) * s < t <= Service.total_pages t s * s
  /\ (forall db db_count list_fault now params res,
        Z.of_nat (length (Repo.rows db_count)) = t ->
        PageSize (SetDefaults params) = s ->
        Service.ListUsers db db_count list_fault None now params = Ok res ->
        Total res = t /\ list_PageSize res = s /\ TotalPages res = ceil_div t s).
Proof.
  intros Ht Hs.
  assert (E : Service.total_pages t s = ceil_div t s)
    by (apply total_pages_exact; lia).
  split; [exact E |]. split.
  - rewrite E. apply ceil_div_spec. lia.
  - intros db db_count lf now params res Hcount Hsize. unfold Service.ListUsers.
    destruct (Repo.List _ _ _ _) as [users |]; [| discriminate].
    simpl. intros H. injection H as <-. simpl.
    rewrite Hcount, Hsize. auto.
Qed.

Lemma total_pages_ceiling_witness :
  Service.total_pages 0 10 = 0
  /\ Service.total_pages 1 10 = 1
  /\ Service.total_pages 101 10 = 11
  /\ (exists res,
        Service.ListUsers
          (Repo.mkTable [mkUser 1 "Alice" (mkTime 1990 5 10) 0 0] 2)
          (Repo.mkTable [mkUser 1 "Alice" (mkTime 1990 5 10) 0 0] 2)
          None None (mkTime 2024 5 9) (mkPaginationParams 0 0) = Ok res /\
        Total res = 1 /\ list_PageSize res = 10 /\ TotalPages res = 1).
Proof.
  split; [exact (proj1 (total_pages_ceiling 0 10 ltac:(lia) ltac:(lia))) |].
  split; [exact (proj1 (total_pages_ceiling 1 10 ltac:(lia) ltac:(lia))) |].
  split; [exact (proj1 (total_pages_ceiling 101 10 ltac:(lia) ltac:(lia))) |].
  eexists. split; [vm_compute; reflexivity |].
  exact (proj2 (proj2 (total_pages_ceiling 1 10 ltac:(lia) ltac:(lia)))
           (Repo.mkTable [mkUser 1 "Alice" (mkTime 1990 5 10) 0 0] 2)
           (Repo.mkTable [mkUser 1 "Alice" (mkTime 1990 5 10) 0 0] 2)
           None (mkTime 2024 5 9) (mkPaginationParams 0 0) _
           eq_refl eq_refl eq_refl).
Defined.

(** * Part III: further properties of the code *)

Ltac div_lia := Z.to_euclidean_division_equations; lia.

(** ** Paging parameters *)

Section Paging.

Lemma validate_spec (p : PaginationParams) :
  validate_PaginationParams p = true <->
  (Page p = 0 \/ 1 <= Page p) /\ (PageSize p = 0 \/ 1 <= PageSize p <= 100).
Proof.
  unfold validate_PaginationParams, validation_errors.
  destruct p as [pg sz]; simpl. zcases; simpl; intuition (try lia; try discriminate).
Qed.

Lemma SetDefaults_bounds (p : PaginationParams) :
  validate_PaginationParams p = true ->
  1 <= Page (SetDefaults p) /\ 1 <= PageSize (SetDefaults p) <= 100.
Proof.
  intros H. apply validate_spec in H. destruct p as [pg sz]; simpl in H.
  unfold SetDefaults; simpl.
  destruct (Z.eqb_spec pg 0) as [Hp | Hp]; simpl;
    destruct (Z.eqb_spec sz 0) as [Hs | Hs]; simpl; lia.
Qed.

Lemma offset_small (p : PaginationParams) :
  1 <= Page p -> 1 <= PageSize p <= 100 ->
  (Page p - 1) * PageSize p < 2 ^ 31 ->
  GetOffset p = (Page p - 1) * PageSize p /\ GetLimit p = PageSize p.
Proof.
  intros Hp Hs Hb.
  assert (Hpage : Page p - 1 < 2 ^ 31) by nia.
  split.
  - unfold GetOffset, GoInt.mul, GoInt.sub.
    rewrite (int_small (Page p - 1)) by (unfold GoInt.in_int; lia).
    rewrite int_small by (unfold GoInt.in_int; nia).
    unfold GoInt.int32, GoInt.wrap. change (32 - 1) with 31.
    rewrite Z.mod_small by nia. lia.
  - unfold GetLimit, GoInt.int32, GoInt.wrap. change (32 - 1) with 31.
    rewrite Z.mod_small by lia. lia.
Qed.

End Paging.

(** X1: parameters that pass validation are in range once the defaults are
    filled in: the page is at least 1 and the page size lies in 1..100; a
    field that was given is kept, a zero page becomes 1 and a zero page size
    10, and filling in a second time changes nothing. *)
Theorem SetDefaults_in_range (p : PaginationParams) :
  validate_PaginationParams p = true ->
  1 <= Page (SetDefaults p)
  /\ 1 <= PageSize (SetDefaults p) <= 100
  /\ (Page p <> 0 -> Page (SetDefaults p) = Page p)
  /\ (Page p = 0 -> Page (SetDefaults p) = 1)
  /\ (PageSize p <> 0 -> PageSize (SetDefaults p) = PageSize p)
  /\ (PageSize p = 0 -> PageSize (SetDefaults p) = 10)
  /\ SetDefaults (SetDefaults p) = SetDefaults p.
Proof.
  intros H. apply validate_spec in H. destruct p as [pg sz]; simpl in H.
  unfold SetDefaults; simpl.
  destruct (Z.eqb_spec pg 0) as [Hp | Hp]; simpl;
    destruct (Z.eqb_spec sz 0) as [Hs | Hs]; simpl;
    rewrite ?Hp, ?Hs; simpl;
    try (destruct (Z.eqb_spec pg 0); [lia |]);
    try (destruct (Z.eqb_spec sz 0); [lia |]); simpl;
    repeat split; try lia; try congruence.
  destruct (Z.eqb_spec sz 0); [lia | reflexivity].
Qed.

Lemma SetDefaults_in_range_witness :
  1 <= Page (SetDefaults (mkPaginationParams 0 0))
  /\ 1 <= PageSize (SetDefaults (mkPaginationParams 0 0)) <= 100.
Proof.
  destruct (SetDefaults_in_range (mkPaginationParams 0 0) eq_refl) as (H1 & H2 & _).
  exact (conj H1 H2).
Defined.

(** X2: for validated parameters with defaults filled in, when
    (page - 1) * page_size stays below 2^31 the offset handed to the store
    is exactly that product and not negative, and the limit is the page
    size, between 1 and 100. *)
Theorem GetOffset_exact (p : PaginationParams) :
  validate_PaginationParams p = true ->
  (Page (SetDefaults p) - 1) * PageSize (SetDefaults p) < 2 ^ 31 ->
  GetOffset (SetDefaults p) = (Page (SetDefaults p) - 1) * PageSize (SetDefaults p)
  /\ 0 <= GetOffset (SetDefaults p)
  /\ GetLimit (SetDefaults p) = PageSize (SetDefaults p)
  /\ 1 <= GetLimit (SetDefaults p) <= 100.
Proof.
  intros Hv Hb. destruct (SetDefaults_bounds p Hv) as [Hp Hs].
  destruct (offset_small (SetDefaults p) Hp Hs Hb) as [Eo El].
  rewrite Eo, El. repeat split; try lia; nia.
Qed.

Lemma GetOffset_exact_witness :
  GetOffset (SetDefaults (mkPaginationParams 3 0)) = 20
  /\ GetLimit (SetDefaults (mkPaginationParams 3 0)) = 10.
Proof.
  destruct (GetOffset_exact (mkPaginationParams 3 0) eq_refl ltac:(by_eval))
    as (H1 & _ & H3 & _).
  exact (conj H1 H3).
Defined.

(** ** The order and the size of a page *)

Section Listing.

Local Abbreviation by_id := (fun a b : User => ID a <= ID b).

Lemma insert_by_id_perm (u : User) (l : list User) :
  Repo.insert_by_id u l ≡ₚ u :: l.
Proof.
  induction l as [| v l IH]; simpl; [reflexivity |].
  destruct (ID u <=? ID v); [reflexivity |].
  rewrite IH. apply Permutation_swap.
Qed.

Lemma order_by_id_perm (l : list User) : Repo.order_by_id l ≡ₚ l.
Proof.
  induction l as [| u l IH]; simpl; [reflexivity |].
  rewrite insert_by_id_perm. now rewrite IH.
Qed.

Lemma insert_by_id_sorted (u : User) (l : list User) :
  StronglySorted by_id l -> StronglySorted by_id (Repo.insert_by_id u l).
Proof.
  induction 1 as [| v l Hs IH Hv]; simpl.
  - repeat constructor.
  - destruct (Z.leb_spec (ID u) (ID v)) as [Huv | Huv].
    + constructor; [now constructor |].
      constructor; [exact Huv |].
      eapply Forall_impl; [exact Hv |]. simpl; intros; lia.
    + constructor; [exact IH |].
      rewrite insert_by_id_perm. constructor; [lia | exact Hv].
Qed.

Lemma order_by_id_sorted (l : list User) : StronglySorted by_id (Repo.order_by_id l).
Proof.
  induction l as [| u l IH]; simpl; [constructor |].
  now apply insert_by_id_sorted.
Qed.

Lemma StronglySorted_drop {A} (R : A -> A -> Prop) (n : nat) (l : list A) :
  StronglySorted R l -> StronglySorted R (drop n l).
Proof.
  intros H. revert n. induction H as [| x l Hs IH Hx]; intros [| n]; simpl;
    try constructor; auto.
Qed.

Lemma StronglySorted_take {A} (R : A -> A -> Prop) (n : nat) (l : list A) :
  StronglySorted R l -> StronglySorted R (take n l).
Proof.
  intros H. revert n. induction H as [| x l Hs IH Hx]; intros [| n]; simpl;
    try constructor; auto.
  apply Forall_take. exact Hx.
Qed.

Lemma StronglySorted_map {A B} (R : A -> A -> Prop) (S : B -> B -> Prop)
    (f : A -> B) (l : list A) :
  (forall a b, R a b -> S (f a) (f b)) ->
  StronglySorted R l -> StronglySorted S (map f l).
Proof.
  intros HRS. induction 1 as [| x l Hs IH Hx]; simpl; constructor; auto.
  apply Forall_map. eapply Forall_impl; [exact Hx |]. simpl. auto.
Qed.

Lemma page_in_rows (l : list User) (a b : nat) (u : User) :
  In u (take a (drop b (Repo.order_by_id l))) -> In u l.
Proof.
  intros Hu. apply list_elem_of_In in Hu.
  apply list_elem_of_In. rewrite <- (order_by_id_perm l).
  eapply subseteq_drop, subseteq_take. exact Hu.
Qed.

Lemma page_length_spec (l : list User) (limit offset : Z) :
  0 <= limit -> 0 <= offset ->
  Z.of_nat (length (take (Z.to_nat limit) (drop (Z.to_nat offset) (Repo.order_by_id l)))) =
  page_length (Z.of_nat (length l)) limit offset.
Proof.
  intros Hl Ho. rewrite length_take, length_drop.
  rewrite (Permutation_length (order_by_id_perm l)).
  unfold page_length. lia.
Qed.

Lemma List_rows (db : Repo.Table) (limit offset : Z) :
  0 <= limit -> 0 <= offset ->
  Repo.List db None limit offset =
  Ok (take (Z.to_nat limit) (drop (Z.to_nat offset) (Repo.order_by_id (Repo.rows db)))).
Proof.
  intros Hl Ho. unfold Repo.List.
  destruct (Z.ltb_spec limit 0); [lia |].
  destruct (Z.ltb_spec offset 0); [lia |]. reflexivity.
Qed.

Lemma page_length_pos (n s p : Z) :
  0 <= n -> 0 < s -> 1 <= p ->
  (0 < page_length n s ((p - 1) * s) <-> p <= ceil_div n s).
Proof.
  intros Hn Hs Hp. pose proof (ceil_div_spec n s Hs) as Hc.
  unfold page_length. split; intros H.
  - assert ((p - 1) * s < n) by lia.
    destruct (Z_le_gt_dec p (ceil_div n s)); [assumption | exfalso; nia].
  - assert ((p - 1) * s < n) by nia. lia.
Qed.

Lemma page_length_full (n s p : Z) :
  0 <= n -> 0 < s -> 1 <= p -> p < ceil_div n s ->
  page_length n s ((p - 1) * s) = s.
Proof.
  intros Hn Hs Hp H. pose proof (ceil_div_spec n s Hs) as Hc.
  unfold page_length. assert (p * s < n) by nia. lia.
Qed.

(** [ListUsers] on valid parameters, spelled out: the page comes from the
    table the list statement sees, the total from the one the count
    statement sees. *)
Lemma ListUsers_ok (db db_count : Repo.Table) (now : Time)
    (params : PaginationParams) :
  let q := SetDefaults params in
  let n := Z.of_nat (length (Repo.rows db_count)) in
  validate_PaginationParams params = true ->
  (Page q - 1) * PageSize q < 2 ^ 31 ->
  Service.ListUsers db db_count None None now params =
  Ok (mkUserListResponse
        (map (Service.user_with_age now)
           (take (Z.to_nat (PageSize q))
              (drop (Z.to_nat ((Page q - 1) * PageSize q))
                 (Repo.order_by_id (Repo.rows db)))))
        n (Page q) (PageSize q) (Service.total_pages n (PageSize q))).
Proof.
  intros q n Hv Hoff.
  destruct (SetDefaults_bounds params Hv) as (Hp & Hs). fold q in Hp, Hs.
  destruct (offset_small q Hp Hs Hoff) as (Eo & El).
  unfold Service.ListUsers. fold q.
  rewrite List_rows by (rewrite ?Eo, ?El; nia).
  rewrite Eo, El. reflexivity.
Qed.

End Listing.

(** X3: the rows [List] returns are rows of the table in ascending order of
    id, min(limit, max(0, count - offset)) of them; from offset 0 with a
    limit that is not below the row count it returns every row. *)
Theorem List_ordered (db : Repo.Table) (limit offset : Z) :
  0 <= limit -> 0 <= offset ->
  exists users,
    Repo.List db None limit offset = Ok users
    /\ StronglySorted (fun a b => ID a <= ID b) users
    /\ (forall u, In u users -> In u (Repo.rows db))
    /\ Z.of_nat (length users) =
       page_length (Z.of_nat (length (Repo.rows db))) limit offset
    /\ (offset = 0 -> Z.of_nat (length (Repo.rows db)) <= limit ->
        users ≡ₚ Repo.rows db).
Proof.
  intros Hl Ho. rewrite List_rows by assumption.
  eexists; split; [reflexivity |].
  split; [| split; [| split]].
  - apply StronglySorted_take, StronglySorted_drop, order_by_id_sorted.
  - intros u. apply page_in_rows.
  - now apply page_length_spec.
  - intros -> Hlen. simpl. rewrite drop_0, take_ge.
    + apply order_by_id_perm.
    + rewrite (Permutation_length (order_by_id_perm (Repo.rows db))). lia.
Qed.

Lemma List_ordered_witness :
  exists users,
    Repo.List (Repo.mkTable [mkUser 2 "b" (mkTime 2000 1 1) 0 0;
                             mkUser 1 "a" (mkTime 1990 5 17) 0 0] 3) None 10 0
      = Ok users
    /\ StronglySorted (fun a b => ID a <= ID b) users.
Proof.
  destruct (List_ordered
              (Repo.mkTable [mkUser 2 "b" (mkTime 2000 1 1) 0 0;
                             mkUser 1 "a" (mkTime 1990 5 17) 0 0] 3) 10 0
              ltac:(lia) ltac:(lia)) as (users & H1 & H2 & _).
  exists users. exact (conj H1 H2).
Defined.

(** X4: the list statement and the count statement are not in one
    transaction and may see different tables.  With valid parameters, no
    storage failure and an offset below 2^31, [ListUsers] answers with the
    page and page size after defaults and with the users of that page of the
    table the list statement sees: min(page_size, max(0, rows - offset)) of
    them, in ascending order of id, each a row with its age.  The total is
    the row count the count statement sees and, below 2^53, the page count is
    the exact ceiling of that total over the page size. *)
Theorem ListUsers_page (db db_count : Repo.Table) (now : Time)
    (params : PaginationParams) :
  let q := SetDefaults params in
  let n := Z.of_nat (length (Repo.rows db)) in
  let t := Z.of_nat (length (Repo.rows db_count)) in
  validate_PaginationParams params = true ->
  (Page q - 1) * PageSize q < 2 ^ 31 ->
  t < 2 ^ 53 ->
  exists res,
    Service.ListUsers db db_count None None now params = Ok res
    /\ list_Page res = Page q
    /\ list_PageSize res = PageSize q
    /\ Total res = t
    /\ TotalPages res = ceil_div t (PageSize q)
    /\ Z.of_nat (length (Users res)) =
       page_length n (PageSize q) ((Page q - 1) * PageSize q)
    /\ StronglySorted (fun a b => resp_ID a <= resp_ID b) (Users res)
    /\ Forall (fun r => exists u, In u (Repo.rows db)
                 /\ r = Service.user_with_age now u) (Users res).
Proof.
  intros q n t Hv Hoff Ht.
  destruct (SetDefaults_bounds params Hv) as (Hp & Hs). fold q in Hp, Hs.
  rewrite (ListUsers_ok db db_count now params Hv Hoff). fold q t.
  eexists; split; [reflexivity |]. simpl.
  repeat split.
  - apply total_pages_exact; subst t; lia.
  - rewrite length_map. apply page_length_spec; nia.
  - eapply StronglySorted_map;
      [| apply StronglySorted_take, StronglySorted_drop, order_by_id_sorted].
    simpl. auto.
  - apply Forall_map, Forall_forall. intros u Hu. apply list_elem_of_In in Hu.
    exists u. split; [eapply page_in_rows; exact Hu | reflexivity].
Qed.

Lemma ListUsers_page_witness :
  exists res,
    Service.ListUsers
      (Repo.mkTable [mkUser 1 "a" (mkTime 1990 5 17) 0 0;
                     mkUser 2 "b" (mkTime 2000 1 1) 0 0;
                     mkUser 3 "c" (mkTime 2010 12 31) 0 0] 4)
      (Repo.mkTable [mkUser 1 "a" (mkTime 1990 5 17) 0 0;
                     mkUser 2 "b" (mkTime 2000 1 1) 0 0] 4)
      None None (mkTime 2024 6 1) (mkPaginationParams 2 2) = Ok res
    /\ Total res = 2 /\ TotalPages res = 1
    /\ Z.of_nat (length (Users res)) = 1.
Proof.
  destruct (ListUsers_page
      (Repo.mkTable [mkUser 1 "a" (mkTime 1990 5 17) 0 0;
                     mkUser 2 "b" (mkTime 2000 1 1) 0 0;
                     mkUser 3 "c" (mkTime 2010 12 31) 0 0] 4)
      (Repo.mkTable [mkUser 1 "a" (mkTime 1990 5 17) 0 0;
                     mkUser 2 "b" (mkTime 2000 1 1) 0 0] 4)
      (mkTime 2024 6 1) (mkPaginationParams 2 2)
      eq_refl ltac:(by_eval) ltac:(by_eval))
    as (res & H1 & _ & _ & H4 & H5 & H6 & _).
  exists res. exact (conj H1 (conj H4 (conj H5 H6))).
Defined.

(** X5: what ties the page to the page count holds when the count statement
    sees as many rows as the list statement, and only then.  With equal row
    counts (valid parameters, no storage failure, offset below 2^31, fewer
    than 2^53 rows) the page is empty exactly when it lies past the last
    page, every page before the last is full, and the page count is zero
    exactly when the table is empty.  With a row deleted between the two
    statements the answer can hold a user although its total and its page
    count are zero. *)
Theorem ListUsers_last_page (db db_count : Repo.Table) (now : Time)
    (params : PaginationParams) :
  let q := SetDefaults params in
  let n := Z.of_nat (length (Repo.rows db)) in
  validate_PaginationParams params = true ->
  (Page q - 1) * PageSize q < 2 ^ 31 ->
  n < 2 ^ 53 ->
  length (Repo.rows db_count) = length (Repo.rows db) ->
  (exists res,
     Service.ListUsers db db_count None None now params = Ok res
     /\ (Users res = [] <-> TotalPages res < Page q)
     /\ (Page q < TotalPages res -> Z.of_nat (length (Users res)) = PageSize q)
     /\ (TotalPages res = 0 <-> Repo.rows db = []))
  /\ (forall u, exists res,
        Service.ListUsers (Repo.mkTable [u] (ID u + 1)) (Repo.mkTable [] (ID u + 1))
          None None now (mkPaginationParams 0 0) = Ok res
        /\ Users res = [Service.user_with_age now u]
        /\ Total res = 0 /\ TotalPages res = 0 /\ list_Page res = 1).
Proof.
  intros q n Hv Hoff Hn Hsame. split.
  2:{ intros u. eexists. split; [reflexivity |]. repeat split. }
  destruct (SetDefaults_bounds params Hv) as (Hp & Hs). fold q in Hp, Hs.
  rewrite (ListUsers_ok db db_count now params Hv Hoff). fold q.
  rewrite Hsame. fold n.
  eexists; split; [reflexivity |]. simpl.
  rewrite total_pages_exact by (subst n; lia).
  assert (Hn0 : 0 <= n) by (subst n; lia).
  pose proof (page_length_pos n (PageSize q) (Page q) Hn0 ltac:(lia) Hp) as Hpos.
  pose proof (page_length_spec (Repo.rows db) (PageSize q)
                ((Page q - 1) * PageSize q) ltac:(lia) ltac:(nia)) as Hlen.
  fold n in Hlen.
  split; [| split].
  - split; intros H.
    + apply (f_equal (@length _)) in H. rewrite length_map in H. simpl in H.
      destruct (Z_lt_ge_dec (ceil_div n (PageSize q)) (Page q)); [assumption |].
      assert (0 < page_length n (PageSize q) ((Page q - 1) * PageSize q))
        by (apply Hpos; lia). lia.
    + destruct (take _ _) as [| u users]; [reflexivity | exfalso].
      assert (0 < page_length n (PageSize q) ((Page q - 1) * PageSize q))
        by (rewrite <- Hlen; simpl; lia).
      apply Hpos in H0. lia.
  - intros H. rewrite length_map, Hlen.
    apply page_length_full; lia.
  - pose proof (ceil_div_spec n (PageSize q) ltac:(lia)) as Hc.
    split; intros H.
    + rewrite H in Hc. assert (n = 0) by lia.
      destruct (Repo.rows db); [reflexivity | subst n; simpl in *; lia].
    + apply ceil_div_bounds; [lia |]. subst n. rewrite H. simpl. lia.
Qed.

Lemma ListUsers_last_page_witness :
  exists res,
    Service.ListUsers
      (Repo.mkTable [mkUser 1 "a" (mkTime 1990 5 17) 0 0;
                     mkUser 2 "b" (mkTime 2000 1 1) 0 0;
                     mkUser 3 "c" (mkTime 2010 12 31) 0 0] 4)
      (Repo.mkTable [mkUser 1 "a" (mkTime 1990 5 17) 0 0;
                     mkUser 2 "b" (mkTime 2000 1 1) 0 0;
                     mkUser 4 "d" (mkTime 2011 1 1) 0 0] 5)
      None None (mkTime 2024 6 1) (mkPaginationParams 3 2) = Ok res
    /\ (Users res = [] <-> TotalPages res < 3).
Proof.
  destruct (proj1 (ListUsers_last_page
      (Repo.mkTable [mkUser 1 "a" (mkTime 1990 5 17) 0 0;
                     mkUser 2 "b" (mkTime 2000 1 1) 0 0;
                     mkUser 3 "c" (mkTime 2010 12 31) 0 0] 4)
      (Repo.mkTable [mkUser 1 "a" (mkTime 1990 5 17) 0 0;
                     mkUser 2 "b" (mkTime 2000 1 1) 0 0;
                     mkUser 4 "d" (mkTime 2011 1 1) 0 0] 5)
      (mkTime 2024 6 1) (mkPaginationParams 3 2)
      eq_refl ltac:(by_eval) ltac:(by_eval) eq_refl))
    as (res & H1 & H2 & _).
  exists res. exact (conj H1 H2).
Defined.

(** ** Parsing and formatting a date *)

Section RoundTrip.

Lemma Z_range_forallb (P : Z -> bool) (n : Z) :
  forallb P (map Z.of_nat (seq 0 (Z.to_nat n))) = true ->
  forall x, 0 <= x < n -> P x = true.
Proof.
  intros H x Hx. rewrite forallb_forall in H. apply H.
  apply in_map_iff. exists (Z.to_nat x). split; [lia |].
  apply in_seq. lia.
Qed.

Lemma digit_char_mod (z a : Z) :
  0 <= a <= 9 -> z mod 10 = a -> Layout.digit_char z = Layout.digit_char a.
Proof.
  intros Ha Hz. unfold Layout.digit_char. rewrite Hz.
  now rewrite (Z.mod_small a 10) by lia.
Qed.

Lemma digit_char_congr (z z' : Z) :
  z mod 10 = z' mod 10 -> Layout.digit_char z = Layout.digit_char z'.
Proof. unfold Layout.digit_char. now intros ->. Qed.

Lemma digit_char_digit (c : ascii) (x : Z) :
  Layout.digit c = Some x -> Layout.digit_char x = c.
Proof.
  intros H. pose proof (digit_range c x H) as Hx. revert H.
  unfold Layout.digit, Layout.digit_char.
  destruct (_ && _); [| discriminate]. intros [= <-].
  rewrite Z.mod_small by lia.
  replace (48 + (Z.of_nat (nat_of_ascii c) - 48)) with (Z.of_nat (nat_of_ascii c)) by lia.
  rewrite Nat2Z.id. apply ascii_nat_embedding.
Qed.

Lemma digit_digit_char (x : Z) :
  0 <= x <= 9 -> Layout.digit (Layout.digit_char x) = Some x.
Proof.
  intros Hx.
  pose proof (Z_range_forallb
                (fun x => match Layout.digit (Layout.digit_char x) with
                          | Some y => y =? x
                          | None => false
                          end) 10 ltac:(vm_compute; reflexivity) x ltac:(lia)) as H.
  simpl in H. destruct (Layout.digit (Layout.digit_char x)); [| discriminate].
  apply Z.eqb_eq in H. now subst.
Qed.

Lemma appendInt_2 (x : Z) :
  0 <= x <= 99 ->
  Layout.appendInt x 2 =
  String (Layout.digit_char (x / 10)) (String (Layout.digit_char x) EmptyString).
Proof.
  intros Hx. apply String.eqb_eq.
  exact (Z_range_forallb
           (fun x => String.eqb (Layout.appendInt x 2)
              (String (Layout.digit_char (x / 10))
                 (String (Layout.digit_char x) EmptyString))) 100
           ltac:(vm_compute; reflexivity) x ltac:(lia)).
Qed.

Lemma appendInt_4 (x : Z) :
  0 <= x <= 9999 ->
  Layout.appendInt x 4 =
  String (Layout.digit_char (x / 1000)) (String (Layout.digit_char (x / 100))
    (String (Layout.digit_char (x / 10)) (String (Layout.digit_char x) EmptyString))).
Proof.
  intros Hx. apply String.eqb_eq.
  exact (Z_range_forallb
           (fun x => String.eqb (Layout.appendInt x 4)
              (String (Layout.digit_char (x / 1000)) (String (Layout.digit_char (x / 100))
                (String (Layout.digit_char (x / 10))
                   (String (Layout.digit_char x) EmptyString))))) 10000
           ltac:(vm_compute; reflexivity) x ltac:(lia)).
Qed.

Lemma num2_digit_chars (x : Z) :
  0 <= x <= 99 ->
  Layout.num2 (Layout.digit_char (x / 10)) (Layout.digit_char x) = Some x.
Proof.
  intros Hx. unfold Layout.num2.
  rewrite (digit_digit_char (x / 10)) by div_lia.
  rewrite (digit_char_congr x (x mod 10)) by div_lia.
  rewrite digit_digit_char by div_lia. f_equal. div_lia.
Qed.

Lemma num4_digit_chars (x : Z) :
  0 <= x <= 9999 ->
  Layout.num4 (Layout.digit_char (x / 1000)) (Layout.digit_char (x / 100))
              (Layout.digit_char (x / 10)) (Layout.digit_char x) = Some x.
Proof.
  intros Hx. unfold Layout.num4.
  replace (x / 1000) with (x / 100 / 10) by div_lia.
  rewrite (num2_digit_chars (x / 100)) by div_lia.
  replace (Layout.digit_char (x / 10)) with (Layout.digit_char (x mod 100 / 10))
    by (apply digit_char_congr; div_lia).
  replace (Layout.digit_char x) with (Layout.digit_char (x mod 100))
    by (apply digit_char_congr; div_lia).
  rewrite (num2_digit_chars (x mod 100)) by div_lia. f_equal. div_lia.
Qed.

Lemma Format_Parse (s : string) (t : Time) :
  Layout.Parse s = Some t -> Layout.Format t = s.
Proof.
  unfold Layout.Parse. intros H.
  repeat match type of H with
  | match ?x with EmptyString => _ | String _ _ => _ end = _ =>
      destruct x; try discriminate
  end.
  unfold Layout.num4, Layout.num2 in H.
  repeat match type of H with
  | context [match Layout.digit ?c with Some _ => _ | None => _ end] =>
      let E := fresh "E" in
      destruct (Layout.digit c) eqn:E; try discriminate
  end.
  match type of H with (if ?b then _ else _) = _ => destruct b eqn:Eb end;
    [| discriminate].
  injection H as <-.
  repeat (apply andb_true_iff in Eb as [Eb ?]).
  unfold Layout.is_dash in *.
  repeat match goal with
  | Hd : Ascii.eqb _ _ = true |- _ => apply Ascii.eqb_eq in Hd; subst
  end.
  repeat match goal with
  | Hd : Layout.digit ?c = Some ?x |- _ =>
      pose proof (digit_range c x Hd); apply digit_char_digit in Hd; subst c
  end.
  unfold Layout.Format; simpl Year; simpl Month; simpl Day.
  rewrite appendInt_4, !appendInt_2 by div_lia. cbv [String.append].
  repeat match goal with
  | |- String _ _ = String _ _ =>
      apply f_equal2; [first [reflexivity | apply digit_char_mod; div_lia] |]
  end.
  reflexivity.
Qed.

Lemma Parse_Format (t : Time) :
  valid_date t -> 0 <= Year t <= 9999 -> Layout.Parse (Layout.Format t) = Some t.
Proof.
  intros (_ & Hm & Hd) Hy. destruct t as [y m d]; simpl in *.
  assert (Hd' : d <= 31) by
    (unfold daysIn in Hd;
     repeat match type of Hd with
            | context [if ?b then _ else _] => destruct b
            end; lia).
  unfold Layout.Format; simpl Year; simpl Month; simpl Day.
  rewrite appendInt_4, !appendInt_2 by div_lia. cbv [String.append].
  unfold Layout.Parse, Layout.is_dash.
  rewrite num4_digit_chars, !num2_digit_chars by div_lia.
  destruct (Z.leb_spec 1 m); [| lia]. destruct (Z.leb_spec m 12); [| lia].
  destruct (Z.leb_spec 1 d); [| lia]. destruct (Z.leb_spec d (daysIn m y)); [| lia].
  reflexivity.
Qed.

End RoundTrip.

(** ** Creating and reading back *)

Section Creating.

Lemma find_app_other (id : Z) (l : list User) (u : User) :
  ID u <> id -> find (Repo.has_id id) (l ++ [u]) = find (Repo.has_id id) l.
Proof.
  intros Hu. induction l as [| v l IH]; simpl.
  - unfold Repo.has_id. destruct (Z.eqb_spec (ID u) id); [contradiction | reflexivity].
  - destruct (Repo.has_id id v); [reflexivity | exact IH].
Qed.

End Creating.

(** X6: what [CreateUser] does in every case.  A date that does not parse
    gives [ErrInvalidDate], checked before the store is touched; a storage
    failure is passed on as it is; in both cases the table is unchanged.
    Otherwise the response carries the next serial id, the name and the date
    string of the request verbatim and no age, the table has one row more,
    and every other id is found as before. *)
Theorem CreateUser_outcome (db : Repo.Table) (fault : option string) (clock : Z)
    (req : CreateUserRequest) :
  match Service.CreateUser db fault clock req with
  | (Err e, db') =>
      db' = db
      /\ ((Layout.Parse (create_DOB req) = None /\ e = ErrInvalidDate)
          \/ (exists d msg, Layout.Parse (create_DOB req) = Some d
                /\ fault = Some msg /\ e = DriverError msg))
  | (Ok resp, db') =>
      fault = None
      /\ (exists d, Layout.Parse (create_DOB req) = Some d)
      /\ resp = mkUserResponse (Repo.next_id db) (create_Name req) (create_DOB req) None
      /\ length (Repo.rows db') = S (length (Repo.rows db))
      /\ Repo.next_id db' = Repo.next_id db + 1
      /\ (forall id, id <> Repo.next_id db ->
          find (Repo.has_id id) (Repo.rows db') = find (Repo.has_id id) (Repo.rows db))
  end.
Proof.
  unfold Service.CreateUser, Repo.Create.
  destruct (Layout.Parse (create_DOB req)) as [d |] eqn:Hp.
  - destruct fault as [msg |]; simpl.
    + split; [reflexivity |]. right. exists d, msg. auto.
    + split; [reflexivity |]. split; [eauto |].
      rewrite (Format_Parse _ _ Hp).
      split; [reflexivity |]. split; [rewrite length_app; simpl; lia |].
      split; [reflexivity |].
      intros id Hid. apply find_app_other. simpl. congruence.
  - split; [reflexivity |]. left. auto.
Qed.

(** X7: a user created in a table whose ids are below the next serial value
    is read back under the id of the response with the same name and the
    same date string, and with the age of the parsed date at the time of
    reading. *)
Theorem create_then_get (db : Repo.Table) (clock : Z) (now : Time)
    (req : CreateUserRequest) (d : Time) :
  Repo.fresh_ids db ->
  Layout.Parse (create_DOB req) = Some d ->
  exists resp db',
    Service.CreateUser db None clock req = (Ok resp, db')
    /\ Service.GetUser db' None now (resp_ID resp) =
       Ok (mkUserResponse (resp_ID resp) (create_Name req) (create_DOB req)
             (Some (CalculateAge now d))).
Proof.
  intros Hfresh Hp.
  pose proof (CreateUser_stores db clock req d Hfresh Hp) as H.
  cbv zeta in H. destruct H as [Hc Hf].
  rewrite Hc. eexists _, _. split; [reflexivity |].
  cbn [resp_ID].
  rewrite (GetUser_found _ now _ _ Hf). cbn [ID Name DOB].
  now rewrite (Format_Parse _ _ Hp).
Qed.

Lemma create_then_get_witness :
  exists resp db',
    Service.CreateUser (Repo.mkTable [] 1) None 0
      (mkCreateUserRequest "Ann" "1990-05-17") = (Ok resp, db')
    /\ Service.GetUser db' None (mkTime 2024 5 17) (resp_ID resp) =
       Ok (mkUserResponse (resp_ID resp) "Ann" "1990-05-17"
             (Some (CalculateAge (mkTime 2024 5 17) (mkTime 1990 5 17)))).
Proof.
  exact (create_then_get (Repo.mkTable [] 1) 0 (mkTime 2024 5 17)
           (mkCreateUserRequest "Ann" "1990-05-17") (mkTime 1990 5 17)
           ltac:(constructor) eq_refl).
Defined.

(** ** What the table keeps *)

Section Invariants.

Lemma map_ID_set_fields (clock id : Z) (name : string) (dob : Time) (l : list User) :
  map ID (map (Repo.set_fields clock id name dob) l) = map ID l.
Proof.
  rewrite map_map. apply map_ext. intros u.
  unfold Repo.set_fields. now destruct (Repo.has_id id u).
Qed.

Lemma find_set_fields_same (clock id : Z) (name : string) (dob : Time) (l : list User) :
  find (Repo.has_id id) (map (Repo.set_fields clock id name dob) l) =
  (fun u => mkUser (ID u) name dob (CreatedAt u) clock) <$> find (Repo.has_id id) l.
Proof.
  induction l as [| u l IH]; simpl; [reflexivity |].
  unfold Repo.set_fields at 1 2.
  destruct (Repo.has_id id u) eqn:E.
  - unfold Repo.has_id in *. simpl. now rewrite E.
  - rewrite E. exact IH.
Qed.

Lemma find_set_fields_other (clock id id' : Z) (name : string) (dob : Time)
    (l : list User) :
  id' <> id ->
  find (Repo.has_id id') (map (Repo.set_fields clock id name dob) l) =
  find (Repo.has_id id') l.
Proof.
  intros Hne. induction l as [| u l IH]; simpl; [reflexivity |].
  unfold Repo.set_fields at 1 2.
  destruct (Repo.has_id id u) eqn:E.
  - unfold Repo.has_id in *. simpl. apply Z.eqb_eq in E.
    destruct (Z.eqb_spec (ID u) id'); [lia | exact IH].
  - destruct (Repo.has_id id' u); [reflexivity | exact IH].
Qed.

Lemma set_fields_absent (clock id : Z) (name : string) (dob : Time) (l : list User) :
  find (Repo.has_id id) l = None ->
  map (Repo.set_fields clock id name dob) l = l.
Proof.
  induction l as [| u l IH]; simpl; [reflexivity |].
  unfold Repo.set_fields at 1.
  destruct (Repo.has_id id u); [discriminate |].
  intros H. now rewrite IH.
Qed.

Lemma find_filter_other (id id' : Z) (l : list User) :
  id' <> id ->
  find (Repo.has_id id') (filter (fun u => Repo.has_id id u = false) l) =
  find (Repo.has_id id') l.
Proof.
  intros Hne. induction l as [| u l IH]; simpl; [reflexivity |].
  destruct (Repo.has_id id u) eqn:E.
  - rewrite filter_cons_False by congruence.
    unfold Repo.has_id in *. apply Z.eqb_eq in E.
    destruct (Z.eqb_spec (ID u) id'); [lia | exact IH].
  - rewrite filter_cons_True by exact E. simpl.
    destruct (Repo.has_id id' u); [reflexivity | exact IH].
Qed.

Lemma filter_unique (id : Z) (l : list User) (u : User) :
  NoDup (map ID l) -> find (Repo.has_id id) l = Some u ->
  S (length (filter (fun u => Repo.has_id id u = false) l)) = length l.
Proof.
  induction l as [| v l IH]; simpl; [discriminate |].
  intros Hnd Hf. apply NoDup_cons in Hnd as [Hv Hnd].
  destruct (Repo.has_id id v) eqn:E.
  - rewrite filter_cons_False by congruence.
    assert (Habs : find (Repo.has_id id) l = None).
    { destruct (find (Repo.has_id id) l) as [w |] eqn:Ew; [exfalso | reflexivity].
      apply find_some in Ew as [Hin Hw]. apply Hv.
      unfold Repo.has_id in *. apply Z.eqb_eq in E, Hw.
      apply list_elem_of_In. rewrite E, <- Hw. now apply in_map. }
    now destruct (filter_others_absent id l Habs) as [-> _].
  - rewrite filter_cons_True by exact E. simpl. f_equal. now apply IH.
Qed.

Lemma Forall_filter_users (P : User -> Prop) (id : Z) (l : list User) :
  Forall P l -> Forall P (filter (fun u => Repo.has_id id u = false) l).
Proof.
  induction 1 as [| u l Hu _ IH]; [constructor |].
  destruct (Repo.has_id id u) eqn:E.
  - now rewrite filter_cons_False by congruence.
  - rewrite filter_cons_True by exact E. now constructor.
Qed.

Lemma NoDup_filter_ids (id : Z) (l : list User) :
  NoDup (map ID l) -> NoDup (map ID (filter (fun u => Repo.has_id id u = false) l)).
Proof.
  induction l as [| u l IH]; simpl; [auto |].
  intros Hnd. apply NoDup_cons in Hnd as [Hu Hnd].
  destruct (Repo.has_id id u) eqn:E.
  - rewrite filter_cons_False by congruence. auto.
  - rewrite filter_cons_True by exact E. simpl. apply NoDup_cons. split; [| auto].
    intros Hin. apply Hu. apply list_elem_of_In in Hin. apply list_elem_of_In.
    apply in_map_iff in Hin as (w & Hw & Hin). apply in_map_iff. exists w.
    split; [exact Hw |]. apply list_elem_of_In in Hin.
    apply list_elem_of_In. now apply list_elem_of_filter in Hin as [_ Hin].
Qed.

Lemma Create_keeps (db : Repo.Table) (fault : option string) (clock : Z)
    (name : string) (dob : Time) :
  valid_date dob -> store_ok db ->
  store_ok (snd (Repo.Create db fault clock name dob)).
Proof.
  intros Hd (Hf & Hu & Hv). destruct fault; simpl; [now repeat split |].
  unfold store_ok, Repo.fresh_ids, unique_ids, valid_dobs in *. simpl.
  split; [| split].
  - apply Forall_app. split.
    + eapply Forall_impl; [exact Hf |]. simpl; intros; lia.
    + constructor; [simpl; lia | constructor].
  - rewrite map_app. simpl. apply NoDup_app. split; [exact Hu |].
    split; [| apply NoDup_singleton].
    intros x Hx Hx'. apply list_elem_of_singleton in Hx'. subst x.
    apply list_elem_of_In, in_map_iff in Hx as (w & Hw & Hin).
    rewrite Forall_forall in Hf. apply list_elem_of_In in Hin.
    specialize (Hf w Hin). lia.
  - apply Forall_app. split; [exact Hv |].
    constructor; [exact Hd | constructor].
Qed.

Lemma Update_keeps (db : Repo.Table) (fault : option string) (clock id : Z)
    (name : string) (dob : Time) :
  valid_date dob -> store_ok db ->
  store_ok (snd (Repo.Update db fault clock id name dob)).
Proof.
  intros Hd (Hf & Hu & Hv). destruct fault; simpl; [now repeat split |].
  unfold store_ok, Repo.fresh_ids, unique_ids, valid_dobs in *. simpl.
  split; [| split].
  - apply Forall_map. eapply Forall_impl; [exact Hf |]. simpl. intros u Hlt.
    unfold Repo.set_fields. now destruct (Repo.has_id id u).
  - now rewrite map_ID_set_fields.
  - apply Forall_map. eapply Forall_impl; [exact Hv |]. simpl. intros u Hvu.
    unfold Repo.set_fields. now destruct (Repo.has_id id u).
Qed.

Lemma Delete_keeps (db : Repo.Table) (exec_fault rows_fault : option string) (id : Z) :
  store_ok db -> store_ok (snd (Repo.Delete db exec_fault rows_fault id)).
Proof.
  intros (Hf & Hu & Hv). unfold Repo.Delete.
  destruct exec_fault; simpl; [now repeat split |].
  assert (H : store_ok (Repo.mkTable
                (filter (fun u => Repo.has_id id u = false) (Repo.rows db))
                (Repo.next_id db))).
  { unfold store_ok, Repo.fresh_ids, unique_ids, valid_dobs in *. simpl.
    split; [| split].
    - now apply Forall_filter_users.
    - now apply NoDup_filter_ids.
    - now apply Forall_filter_users. }
  destruct rows_fault; simpl; [exact H |].
  now destruct (_ =? 0).
Qed.

Lemma CreateUser_keeps (db : Repo.Table) (fault : option string) (clock : Z)
    (req : CreateUserRequest) :
  store_ok db -> store_ok (snd (Service.CreateUser db fault clock req)).
Proof.
  intros H. unfold Service.CreateUser.
  destruct (Layout.Parse (create_DOB req)) as [d |] eqn:Hp; [| exact H].
  pose proof (Create_keeps db fault clock (create_Name req) d
                (proj1 (Parse_valid _ _ Hp)) H) as Hk.
  destruct (Repo.Create db fault clock (create_Name req) d) as [[u | e] db'];
    exact Hk.
Qed.

Lemma UpdateUser_keeps (db : Repo.Table) (fault : option string) (clock id : Z)
    (req : UpdateUserRequest) :
  store_ok db -> store_ok (snd (Service.UpdateUser db fault clock id req)).
Proof.
  intros H. unfold Service.UpdateUser.
  destruct (Layout.Parse (update_DOB req)) as [d |] eqn:Hp; [| exact H].
  pose proof (Update_keeps db fault clock id (update_Name req) d
                (proj1 (Parse_valid _ _ Hp)) H) as Hk.
  destruct (Repo.Update db fault clock id (update_Name req) d) as [[[u |] | e] db'];
    exact Hk.
Qed.

Lemma DeleteUser_keeps (db : Repo.Table) (exec_fault rows_fault : option string)
    (id : Z) :
  store_ok db -> store_ok (snd (Service.DeleteUser db exec_fault rows_fault id)).
Proof.
  intros H. unfold Service.DeleteUser.
  pose proof (Delete_keeps db exec_fault rows_fault id H) as Hk.
  destruct (Repo.Delete db exec_fault rows_fault id) as [[e |] db']; [| exact Hk].
  now destruct (String.eqb _ _).
Qed.

Lemma UpdateUser_present (db : Repo.Table) (clock id : Z) (req : UpdateUserRequest)
    (d : Time) (u : User) :
  Layout.Parse (update_DOB req) = Some d ->
  find (Repo.has_id id) (Repo.rows db) = Some u ->
  let rows' := map (Repo.set_fields clock id (update_Name req) d) (Repo.rows db) in
  Service.UpdateUser db None clock id req =
    (Ok (mkUserResponse id (update_Name req) (update_DOB req) None),
     Repo.mkTable rows' (Repo.next_id db))
  /\ find (Repo.has_id id) rows' =
     Some (mkUser id (update_Name req) d (CreatedAt u) clock).
Proof.
  intros Hp Hf rows'.
  assert (Hid : ID u = id).
  { apply find_some in Hf as [_ Hf]. now apply Z.eqb_eq in Hf. }
  assert (Hrow : find (Repo.has_id id) rows' =
                 Some (mkUser id (update_Name req) d (CreatedAt u) clock)).
  { subst rows'. rewrite find_set_fields_same, Hf. simpl. now rewrite Hid. }
  split; [| exact Hrow].
  unfold Service.UpdateUser, Repo.Update. rewrite Hp. fold rows'. rewrite Hrow.
  simpl. now rewrite (Format_Parse _ _ Hp).
Qed.

Lemma UpdateUser_absent (db : Repo.Table) (clock id : Z) (req : UpdateUserRequest)
    (d : Time) :
  Layout.Parse (update_DOB req) = Some d ->
  find (Repo.has_id id) (Repo.rows db) = None ->
  Service.UpdateUser db None clock id req = (Err ErrUserNotFound, db).
Proof.
  intros Hp Hf. unfold Service.UpdateUser, Repo.Update. rewrite Hp.
  rewrite find_set_fields_same, Hf. simpl.
  rewrite set_fields_absent by exact Hf. now destruct db.
Qed.

Lemma find_unique (l : list User) (u : User) :
  NoDup (map ID l) -> In u l -> find (Repo.has_id (ID u)) l = Some u.
Proof.
  induction l as [| v l IH]; simpl; [contradiction |].
  intros Hnd Hin. apply NoDup_cons in Hnd as [Hv Hnd].
  unfold Repo.has_id at 1.
  destruct (Z.eqb_spec (ID v) (ID u)) as [E | E].
  - destruct Hin as [-> | Hin]; [reflexivity |]. exfalso. apply Hv.
    rewrite E. apply list_elem_of_In. now apply in_map.
  - destruct Hin as [-> | Hin]; [congruence | auto].
Qed.

End Invariants.

(** X8: every table the service can produce from the empty one, whatever the
    requests and whichever statements fail, has its ids below the next serial
    value, no id twice, and only calendar dates as dates of birth. *)
Theorem reachable_store_ok (db : Repo.Table) : reachable db -> store_ok db.
Proof.
  induction 1 as [| db fault clock req _ IH | db fault clock id req _ IH
                  | db f1 f2 id _ IH].
  - repeat split; constructor.
  - now apply CreateUser_keeps.
  - now apply UpdateUser_keeps.
  - now apply DeleteUser_keeps.
Qed.

Lemma reachable_store_ok_witness :
  store_ok (snd (Service.CreateUser (Repo.mkTable [] 1) None 0
                   (mkCreateUserRequest "Ann" "1990-05-17"))).
Proof.
  exact (reachable_store_ok _
           (reach_create (Repo.mkTable [] 1) None 0
              (mkCreateUserRequest "Ann" "1990-05-17") reach_empty)).
Defined.

(** X9: what [UpdateUser] does with a date that parses and no storage
    failure.  For an id the table holds, the response carries that id and
    the name and date string of the request verbatim, the row keeps its id
    and creation time and takes the new name, date and update time, a read
    of the id afterwards returns the new name and date string with the age
    of the new date, and every other id is found as before; for an id the table does not hold the
    result is [ErrUserNotFound] and the table is unchanged.  The number of
    rows never changes. *)
Theorem UpdateUser_outcome (db : Repo.Table) (clock id : Z) (now : Time)
    (req : UpdateUserRequest) (d : Time) :
  Layout.Parse (update_DOB req) = Some d ->
  length (Repo.rows (snd (Service.UpdateUser db None clock id req))) =
    length (Repo.rows db)
  /\ match find (Repo.has_id id) (Repo.rows db) with
     | Some u =>
         exists db',
           Service.UpdateUser db None clock id req =
             (Ok (mkUserResponse id (update_Name req) (update_DOB req) None), db')
           /\ find (Repo.has_id id) (Repo.rows db') =
              Some (mkUser id (update_Name req) d (CreatedAt u) clock)
           /\ Service.GetUser db' None now id =
              Ok (mkUserResponse id (update_Name req) (update_DOB req)
                    (Some (CalculateAge now d)))
           /\ (forall id', id' <> id ->
               find (Repo.has_id id') (Repo.rows db') =
               find (Repo.has_id id') (Repo.rows db))
     | None => Service.UpdateUser db None clock id req = (Err ErrUserNotFound, db)
     end.
Proof.
  intros Hp. split.
  { unfold Service.UpdateUser, Repo.Update. rewrite Hp.
    destruct (find _ (map _ _)); simpl; now rewrite length_map. }
  destruct (find (Repo.has_id id) (Repo.rows db)) as [u |] eqn:Hf.
  - pose proof (UpdateUser_present db clock id req d u Hp Hf) as H.
    cbv zeta in H. destruct H as [Hu Hrow].
    eexists. split; [exact Hu |]. simpl.
    split; [exact Hrow |]. split.
    + unfold Service.GetUser, Repo.GetById. simpl. rewrite Hrow. simpl.
      now rewrite (Format_Parse _ _ Hp).
    + intros id' Hne. now apply find_set_fields_other.
  - now apply (UpdateUser_absent db clock id req d).
Qed.

Lemma UpdateUser_outcome_witness :
  length (Repo.rows (snd (Service.UpdateUser
            (Repo.mkTable [mkUser 1 "a" (mkTime 1990 5 17) 0 0] 2) None 7 1
            (mkUpdateUserRequest "Bea" "2000-02-29")))) = 1%nat.
Proof.
  exact (proj1 (UpdateUser_outcome
            (Repo.mkTable [mkUser 1 "a" (mkTime 1990 5 17) 0 0] 2) 7 1
            (mkTime 2024 1 1)
            (mkUpdateUserRequest "Bea" "2000-02-29") (mkTime 2000 2 29) eq_refl)).
Defined.

(** X10: deleting an id the table holds, in a table without duplicate ids,
    reports no error, removes one row, leaves every other id as it was, and
    makes both a later read and a second delete of that id answer
    [ErrUserNotFound]. *)
Theorem DeleteUser_removes (db : Repo.Table) (now : Time) (id : Z) (u : User) :
  unique_ids db ->
  find (Repo.has_id id) (Repo.rows db) = Some u ->
  exists db',
    Service.DeleteUser db None None id = (None, db')
    /\ S (length (Repo.rows db')) = length (Repo.rows db)
    /\ Repo.next_id db' = Repo.next_id db
    /\ (forall id', id' <> id ->
        find (Repo.has_id id') (Repo.rows db') = find (Repo.has_id id') (Repo.rows db))
    /\ Service.GetUser db' None now id = Err ErrUserNotFound
    /\ Service.DeleteUser db' None None id = (Some ErrUserNotFound, db').
Proof.
  intros Hu Hf. unfold Service.DeleteUser at 1.
  rewrite (Delete_present db id u Hf).
  eexists. split; [reflexivity |]. simpl.
  split; [now apply (filter_unique id _ u) |].
  split; [reflexivity |].
  split; [intros id' Hne; now apply find_filter_other |].
  split.
  - unfold Service.GetUser, Repo.GetById. simpl. now rewrite find_filter_others.
  - apply DeleteUser_absent. simpl. apply find_filter_others.
Qed.

Lemma DeleteUser_removes_witness :
  exists db',
    Service.DeleteUser (Repo.mkTable [mkUser 1 "a" (mkTime 1990 5 17) 0 0;
                                      mkUser 2 "b" (mkTime 2000 1 1) 0 0] 3)
      None None 1 = (None, db')
    /\ S (length (Repo.rows db')) = 2%nat.
Proof.
  destruct (DeleteUser_removes
              (Repo.mkTable [mkUser 1 "a" (mkTime 1990 5 17) 0 0;
                             mkUser 2 "b" (mkTime 2000 1 1) 0 0] 3)
              (mkTime 2024 1 1) 1 (mkUser 1 "a" (mkTime 1990 5 17) 0 0)
              ltac:(unfold unique_ids; simpl; apply NoDup_cons;
                    split; [| apply NoDup_singleton];
                    intros H; apply list_elem_of_singleton in H; discriminate)
              eq_refl) as (db' & H1 & H2 & _).
  exists db'. exact (conj H1 H2).
Defined.

(** ** The responses of the handlers *)

Section Responses.

Lemma int32_small (z : Z) : GoInt.in_int32 z -> GoInt.int32 z = z.
Proof.
  unfold GoInt.in_int32, GoInt.int32, GoInt.wrap. change (32 - 1) with 31.
  intros H. rewrite Z.mod_small by lia. lia.
Qed.

(** [ParseInt(s, 10, 32)] returns values of 32 bits only, so the conversion
    [int32(id)] of the handlers never changes the id. *)
Lemma ParseInt32_int32 (s : string) (v : Z) :
  Handler.ParseInt32 s = Some v -> GoInt.int32 v = v.
Proof.
  unfold Handler.ParseInt32. intros H. apply int32_small. unfold GoInt.in_int32.
  destruct (match s with
            | EmptyString => (1, s)
            | String c rest => _
            end) as [sign body].
  destruct body; [discriminate |].
  destruct (Handler.digits 0 _) as [n |]; [| discriminate].
  destruct (_ && _) eqn:E; [| discriminate].
  injection H as <-. apply andb_true_iff in E as [E1 E2]. lia.
Qed.

End Responses.

(** X11: the answer of the get handler in every case.  An id that is not a
    32-bit decimal number gives 400; a storage failure gives 500 with the
    fixed message "Failed to get user" (the driver's text is not sent); an id
    the table does not hold gives 404; otherwise the status is left as it is
    and the body is the row found under exactly the parsed id, with its
    age. *)
Theorem GetUser_responses (db : Repo.Table) (fault : option string) (now : Time)
    (c : Ctx) :
  Handler.GetUser db fault now c =
  match Handler.ParseInt32 (Fiber.Params c "id") with
  | None => Fiber.JSON (Fiber.Status c 400) (Fiber.error_map "Invalid user ID")
  | Some id =>
      match fault with
      | Some _ => Fiber.JSON (Fiber.Status c 500) (Fiber.error_map "Failed to get user")
      | None =>
          match find (Repo.has_id id) (Repo.rows db) with
          | None => Fiber.JSON (Fiber.Status c 404) (Fiber.error_map "User not found")
          | Some u =>
              Fiber.JSON c (Handler.json_of_UserResponse (Service.user_with_age now u))
          end
      end
  end.
Proof.
  unfold Handler.GetUser.
  destruct (Handler.ParseInt32 _) as [id |] eqn:Hp; [| reflexivity].
  rewrite (ParseInt32_int32 _ _ Hp).
  unfold Service.GetUser, Repo.GetById.
  destruct fault; [reflexivity |].
  now destruct (find _ _).
Qed.

(** X12: the answer of the delete handler in every case.  A bad id gives 400
    and leaves the table alone.  When the statement itself fails the table is
    unchanged; when only the count of affected rows cannot be read, the rows
    are gone although an error is answered.  Either failure gives 500, except
    that a failure whose text is "sql: no rows in result set" is answered as
    404.  Without failures an id the table does not hold gives 404, and an
    id it holds gives 204 with the body untouched and the id gone from the
    table. *)
Theorem DeleteUser_responses (db : Repo.Table) (exec_fault rows_fault : option string)
    (c : Ctx) :
  let others id := filter (fun u => Repo.has_id id u = false) (Repo.rows db) in
  let status_of msg :=
    if String.eqb msg "sql: no rows in result set" then 404 else 500 in
  let res := Handler.DeleteUser db exec_fault rows_fault c in
  match Handler.ParseInt32 (Fiber.Params c "id") with
  | None =>
      res = (Fiber.JSON (Fiber.Status c 400) (Fiber.error_map "Invalid user ID"), db)
  | Some id =>
      match exec_fault, rows_fault with
      | Some msg, _ => resp_status (fst res) = status_of msg /\ snd res = db
      | None, Some msg =>
          resp_status (fst res) = status_of msg
          /\ snd res = Repo.mkTable (others id) (Repo.next_id db)
      | None, None =>
          match find (Repo.has_id id) (Repo.rows db) with
          | None =>
              res = (Fiber.JSON (Fiber.Status c 404) (Fiber.error_map "User not found"),
                     db)
          | Some _ =>
              res = (Fiber.Status c 204, Repo.mkTable (others id) (Repo.next_id db))
              /\ resp_body (fst res) = resp_body c
              /\ find (Repo.has_id id) (Repo.rows (snd res)) = None
          end
      end
  end.
Proof.
  intros others status_of res. subst res. unfold Handler.DeleteUser.
  destruct (Handler.ParseInt32 _) as [id |] eqn:Hp; [| reflexivity].
  rewrite (ParseInt32_int32 _ _ Hp).
  destruct exec_fault as [msg |].
  - rewrite DeleteUser_exec_failure. subst status_of. simpl.
    now destruct (String.eqb msg _).
  - destruct rows_fault as [msg |].
    + unfold Service.DeleteUser, Repo.Delete. subst status_of others. simpl.
      now destruct (String.eqb msg _).
    + destruct (find (Repo.has_id id) (Repo.rows db)) as [u |] eqn:Hf.
      * unfold Service.DeleteUser. rewrite (Delete_present db id u Hf).
        subst others. simpl. repeat split. apply find_filter_others.
      * now rewrite (DeleteUser_absent db id Hf).
Qed.

(** X13: the answer of the list handler.  The error of [QueryParser] is only
    logged, and the handler goes on with the fields that were filled.
    Parameters that fail validation give 400 with the list of failed checks,
    which is then not empty, whatever the store holds; a failure of either
    query gives 500 with the fixed message, whatever the parameters;
    otherwise (offset below 2^31, the count statement seeing fewer than 2^53
    rows) the status is left as it is and the body carries the row count of
    the count statement as "total", its exact ceiling over the page size as
    "total_pages", and the page and page size after defaults.  A request in
    which no field was filled is page 1 of size 10; one in which only the
    page size was filled, the page missing or not a number, is page 1 of
    that size. *)
Theorem ListUsers_responses (db db_count : Repo.Table)
    (list_fault count_fault : option string) (now : Time) (c : Ctx) :
  let params := Fiber.QueryParser c in
  let q := SetDefaults params in
  let t := Z.of_nat (length (Repo.rows db_count)) in
  let resp := Handler.ListUsers db db_count list_fault count_fault now c in
  (validate_PaginationParams params = false ->
     validation_errors params <> []
     /\ resp = Fiber.JSON (Fiber.Status c 400)
                 (JObj (<["error" := JStr "Invalid pagination parameters"]>
                    {[ "details" := JArr (map JStr (validation_errors params)) ]})))
  /\ (validate_PaginationParams params = true ->
      list_fault <> None \/ count_fault <> None ->
      resp = Fiber.JSON (Fiber.Status c 500) (Fiber.error_map "Failed to list users"))
  /\ (validate_PaginationParams params = true ->
      (Page q - 1) * PageSize q < 2 ^ 31 -> t < 2 ^ 53 ->
      list_fault = None -> count_fault = None ->
      resp_status resp = resp_status c
      /\ Fiber.body_field resp "total" = Some (JNum t)
      /\ Fiber.body_field resp "total_pages" = Some (JNum (ceil_div t (PageSize q)))
      /\ Fiber.body_field resp "page" = Some (JNum (Page q))
      /\ Fiber.body_field resp "page_size" = Some (JNum (PageSize q)))
  /\ (req_query c = None -> Page q = 1 /\ PageSize q = 10)
  /\ (forall size, req_query c = Some (mkPaginationParams 0 size) ->
      1 <= size <= 100 ->
      validate_PaginationParams params = true /\ Page q = 1 /\ PageSize q = size).
Proof.
  intros params q t resp. subst resp. unfold Handler.ListUsers. fold params.
  split; [| split; [| split; [| split]]].
  - intros Hv. rewrite Hv. simpl. split; [| reflexivity].
    unfold validate_PaginationParams in Hv.
    destruct (validation_errors params); [discriminate | discriminate].
  - intros Hv Hfault. rewrite Hv. simpl.
    unfold Service.ListUsers. fold q.
    destruct list_fault as [m |]; [reflexivity |].
    destruct (Repo.List _ _ _ _) as [users | e]; [| reflexivity].
    destruct count_fault as [m |]; [reflexivity |].
    destruct Hfault; congruence.
  - intros Hv Hoff Ht -> ->. rewrite Hv. simpl.
    pose proof (SetDefaults_bounds params Hv) as Hb. fold q in Hb.
    rewrite (ListUsers_ok db db_count now params Hv Hoff). fold q t.
    rewrite total_pages_exact by (subst t; lia).
    repeat split.
  - intros Hq. subst q params. unfold Fiber.QueryParser. rewrite Hq.
    split; reflexivity.
  - intros size Hq Hsize. subst q params. unfold Fiber.QueryParser. rewrite Hq.
    simpl. split.
    + apply validate_spec. simpl. lia.
    + unfold SetDefaults. simpl.
      destruct (Z.eqb_spec size 0); [lia | split; reflexivity].
Qed.

(** ** Requests with a body *)

Section Bodies.

Variable RuneCount : string -> Z.

Lemma request_errors_nil (name dob : string) :
  Body.request_errors RuneCount name dob = [] <->
  name <> "" /\ 2 <= RuneCount name <= 100 /\ exists d, Layout.Parse dob = Some d.
Proof.
  unfold Body.request_errors, Body.name_errors, Body.dob_errors.
  destruct (String.eqb_spec name "") as [-> | Hn]; simpl.
  - split; [discriminate | intros [H _]; congruence].
  - destruct (Z.ltb_spec (RuneCount name) 2); simpl.
    + split; [discriminate | intros (_ & H' & _); lia].
    + destruct (Z.ltb_spec 100 (RuneCount name)); simpl.
      * split; [discriminate | intros (_ & H' & _); lia].
      * destruct (String.eqb_spec dob "") as [-> | Hd].
        -- split; [discriminate |]. intros (_ & _ & d & Hd'). discriminate.
        -- destruct (Layout.Parse dob) as [d |].
           ++ split; [| reflexivity]. intros _.
              split; [assumption |]. split; [lia | eauto].
           ++ split; [discriminate |]. intros (_ & _ & d & Hd'). discriminate.
Qed.

(** A request that fails validation is answered with every failed check and
    does not reach the service. *)
Lemma CreateUser_invalid (db : Repo.Table) (fault : option string) (clock : Z)
    (req : CreateUserRequest) (c : Ctx) :
  Body.request_errors RuneCount (create_Name req) (create_DOB req) <> [] ->
  Body.CreateUser RuneCount db fault clock (Some req) c =
  (Body.validation_failed c
     (Body.request_errors RuneCount (create_Name req) (create_DOB req)), db).
Proof.
  intros H. unfold Body.CreateUser.
  destruct (Body.request_errors _ _ _); [contradiction | reflexivity].
Qed.

Lemma UpdateUser_invalid (db : Repo.Table) (fault : option string) (clock : Z)
    (req : UpdateUserRequest) (c : Ctx) (id : Z) :
  Handler.ParseInt32 (Fiber.Params c "id") = Some id ->
  Body.request_errors RuneCount (update_Name req) (update_DOB req) <> [] ->
  Body.UpdateUser RuneCount db fault clock (Some req) c =
  (Body.validation_failed c
     (Body.request_errors RuneCount (update_Name req) (update_DOB req)), db).
Proof.
  intros Hid H. unfold Body.UpdateUser. rewrite Hid.
  destruct (Body.request_errors _ _ _); [contradiction | reflexivity].
Qed.

End Bodies.

(** X14: the answer of the create handler.  A body that cannot be read
    gives 400 "Invalid request body"; a request that fails validation gives
    400 "Validation failed" with every failed check in "details".  The
    status is 201, 400 or 500.  It is 201 exactly when the body was read, name and date pass validation
    and the store does not fail; the body then carries the next serial id,
    the name and the date string of the request and no age, and the table
    has the new row at its end.  In every other case the table is
    unchanged.  A date that passes validation always parses in the service,
    so the answer "Invalid date format. Expected YYYY-MM-DD" is never sent;
    500 is sent only for a storage failure. *)
Theorem CreateUser_responses (RuneCount : string -> Z) (db : Repo.Table)
    (fault : option string) (clock : Z) (body : option CreateUserRequest)
    (headers params : gmap string string) (query : option PaginationParams) :
  let c := Fiber.request headers params query in
  let res := Body.CreateUser RuneCount db fault clock body c in
  let accepted :=
    exists req d,
      body = Some req
      /\ Body.request_errors RuneCount (create_Name req) (create_DOB req) = []
      /\ Layout.Parse (create_DOB req) = Some d
      /\ fault = None
      /\ resp_body (fst res) =
         Some (Handler.json_of_UserResponse
                 (mkUserResponse (Repo.next_id db) (create_Name req)
                    (create_DOB req) None))
      /\ snd res =
         Repo.mkTable
           (Repo.rows db ++ [mkUser (Repo.next_id db) (create_Name req) d clock clock])
           (Repo.next_id db + 1) in
  (body = None ->
     res = (Fiber.JSON (Fiber.Status c 400) (Fiber.error_map "Invalid request body"),
            db))
  /\ (forall req,
        body = Some req ->
        Body.request_errors RuneCount (create_Name req) (create_DOB req) <> [] ->
        res = (Body.validation_failed c
                 (Body.request_errors RuneCount (create_Name req) (create_DOB req)),
               db)
        /\ resp_status (fst res) = 400
        /\ Fiber.body_field (fst res) "details" =
           Some (JArr (map JStr
                   (Body.request_errors RuneCount (create_Name req) (create_DOB req)))))
  /\ (resp_status (fst res) = 201 \/ resp_status (fst res) = 400
      \/ resp_status (fst res) = 500)
  /\ (resp_status (fst res) = 201 <-> accepted)
  /\ (resp_status (fst res) <> 201 -> snd res = db)
  /\ (resp_status (fst res) = 500 <->
      exists req msg,
        body = Some req /\ fault = Some msg
        /\ Body.request_errors RuneCount (create_Name req) (create_DOB req) = [])
  /\ Fiber.body_field (fst res) "error" <>
     Some (JStr "Invalid date format. Expected YYYY-MM-DD")
  /\ Fiber.body_field (fst res) "age" = None.
Proof.
  intros c res accepted.
  split; [intros ->; reflexivity |].
  split.
  { intros req -> Hne. subst res. rewrite CreateUser_invalid by exact Hne.
    repeat split. }
  subst res accepted. unfold Body.CreateUser.
  destruct body as [req |]; simpl.
  2:{ repeat split; try discriminate; auto.
      - intros (req & d & H & _). discriminate.
      - intros (req & msg & H & _). discriminate. }
  destruct (Body.request_errors RuneCount (create_Name req) (create_DOB req))
    as [| e errs] eqn:Herr; simpl.
  2:{ repeat split; try discriminate; auto.
      - intros (req' & d & [= <-] & H & _). congruence.
      - intros (req' & msg & [= <-] & _ & H). congruence. }
  apply request_errors_nil in Herr as Hok. destruct Hok as (_ & _ & d & Hd).
  unfold Service.CreateUser, Repo.Create. rewrite Hd.
  destruct fault as [msg |]; simpl.
  - repeat split; try discriminate; auto.
    + intros (req' & d' & _ & _ & _ & H & _). discriminate.
    + intros _. exists req, msg. auto.
  - rewrite (Format_Parse _ _ Hd).
    repeat split; try discriminate; auto; try congruence.
    + intros _. exists req, d. repeat split; auto.
    + intros (req' & msg & _ & H & _). discriminate.
Qed.

(** X15: the answer of the update handler.  A bad id is refused with 400
    (and the misspelt message "Invaid user ID") before the body is looked
    at; a body that cannot be read gives 400, and one that fails validation
    gives 400 "Validation failed" with every failed check in "details"; in
    these cases and for an id the table does not hold (404) the table is
    unchanged.  For an id the table holds and no storage failure the status
    stays 200 and the body carries the id and the name and date string of
    the request, without an age.  "Invalid date format. Expected
    YYYY-MM-DD" is never sent. *)
Theorem UpdateUser_responses (RuneCount : string -> Z) (db : Repo.Table)
    (fault : option string) (clock : Z) (body : option UpdateUserRequest)
    (headers params : gmap string string) (query : option PaginationParams) :
  let c := Fiber.request headers params query in
  let res := Body.UpdateUser RuneCount db fault clock body c in
  (Handler.ParseInt32 (Fiber.Params c "id") = None ->
     res = (Fiber.JSON (Fiber.Status c 400) (Fiber.error_map "Invaid user ID"), db))
  /\ (forall id req,
        Handler.ParseInt32 (Fiber.Params c "id") = Some id ->
        body = Some req ->
        Body.request_errors RuneCount (update_Name req) (update_DOB req) <> [] ->
        res = (Body.validation_failed c
                 (Body.request_errors RuneCount (update_Name req) (update_DOB req)),
               db)
        /\ resp_status (fst res) = 400
        /\ Fiber.body_field (fst res) "details" =
           Some (JArr (map JStr
                   (Body.request_errors RuneCount (update_Name req) (update_DOB req)))))
  /\ (resp_status (fst res) = 400 \/ resp_status (fst res) = 404 -> snd res = db)
  /\ (forall id req u,
        Handler.ParseInt32 (Fiber.Params c "id") = Some id ->
        body = Some req ->
        Body.request_errors RuneCount (update_Name req) (update_DOB req) = [] ->
        fault = None ->
        (find (Repo.has_id id) (Repo.rows db) = None -> resp_status (fst res) = 404)
        /\ (find (Repo.has_id id) (Repo.rows db) = Some u ->
            resp_status (fst res) = 200
            /\ resp_body (fst res) =
               Some (Handler.json_of_UserResponse
                       (mkUserResponse id (update_Name req) (update_DOB req) None))
            /\ find (Repo.has_id id) (Repo.rows (snd res)) =
               (fun d => mkUser id (update_Name req) d (CreatedAt u) clock)
                 <$> Layout.Parse (update_DOB req)))
  /\ (resp_status (fst res) = 500 -> fault <> None)
  /\ Fiber.body_field (fst res) "error" <>
     Some (JStr "Invalid date format. Expected YYYY-MM-DD")
  /\ Fiber.body_field (fst res) "age" = None.
Proof.
  intros c res.
  apply and_comm, and_assoc. split.
  { intros id req Hid -> Hne. subst res.
    rewrite (UpdateUser_invalid RuneCount db fault clock req c id Hid Hne).
    repeat split. }
  apply and_comm.
  subst res. unfold Body.UpdateUser.
  destruct (Handler.ParseInt32 (Fiber.Params c "id")) as [id |] eqn:Hid.
  2:{ simpl. repeat split; try discriminate; auto. }
  rewrite (ParseInt32_int32 _ _ Hid).
  destruct body as [req |].
  2:{ simpl. repeat split; try discriminate; auto. }
  destruct (Body.request_errors RuneCount (update_Name req) (update_DOB req))
    as [| e errs] eqn:Herr.
  2:{ simpl. repeat split; try discriminate; auto;
      intros; exfalso; congruence. }
  apply request_errors_nil in Herr as Hok. destruct Hok as (_ & _ & d & Hd).
  destruct fault as [msg |].
  - unfold Service.UpdateUser, Repo.Update. rewrite Hd. simpl.
    repeat split; try discriminate; auto; intros; exfalso; congruence.
  - destruct (find (Repo.has_id id) (Repo.rows db)) as [u |] eqn:Hf.
    + pose proof (UpdateUser_present db clock id req d u Hd Hf) as H.
      cbv zeta in H. destruct H as [-> Hrow]. simpl.
      split; [discriminate |]. split; [intros [H | H]; discriminate |].
      split.
      { intros id' req' u' [= <-] [= <-] _ _. rewrite Hf.
        split; [discriminate |].
        intros [= <-]. rewrite Hd. simpl. auto. }
      repeat split; discriminate.
    + rewrite (UpdateUser_absent db clock id req d Hd Hf). simpl.
      split; [discriminate |]. split; [reflexivity |].
      split.
      { intros id' req' u' [= <-] [= <-] _ _. rewrite Hf.
        split; [reflexivity | discriminate]. }
      repeat split; discriminate.
Qed.

(** ** The middleware chain *)

(** X16: an error that reaches [ErrorHandler] behind [RequestID] is answered
    with an envelope of exactly two members: "request_id", the id chosen for
    the request (the caller's "X-Request-ID" when it is not empty, the
    generated one otherwise), and "error".  A [*fiber.Error] passes its code
    and message; any other error is answered as 500 "Internal Server Error",
    its own text withheld.  Without [RequestID] in front the id is the empty
    string. *)
Theorem ErrorHandler_after_RequestID (uuid : string)
    (headers params : gmap string string) (query : option PaginationParams)
    (err : Middleware.handler_error) :
  let c := Fiber.request headers params query in
  let resp := Middleware.RequestID uuid (fun c => Middleware.ErrorHandler c err) c in
  Fiber.body_field resp "request_id" = Some (JStr (chosen_id uuid headers))
  /\ (uuid <> "" -> chosen_id uuid headers <> "")
  /\ match err with
     | Middleware.FiberError code message =>
         resp_status resp = code
         /\ Fiber.body_field resp "error" = Some (JStr message)
     | Middleware.OtherError _ =>
         resp_status resp = 500
         /\ Fiber.body_field resp "error" = Some (JStr "Internal Server Error")
     end
  /\ (exists fields, resp_body resp = Some (JObj fields)
        /\ dom fields = ({[ "error"; "request_id" ]} : gset string))
  /\ Fiber.body_field (Middleware.ErrorHandler c err) "request_id" = Some (JStr "").
Proof.
  intros c resp. subst resp c.
  split; [| split; [| split; [| split]]].
  - destruct (ErrorHandler_envelope
                (Fiber.SetLocal
                   (Fiber.Set_ (Fiber.request headers params query) "X-Request_ID"
                      (chosen_id uuid headers)) "requestID" (chosen_id uuid headers))
                err) as [_ H].
    unfold Middleware.RequestID. unfold chosen_id, Fiber.Get in *. simpl in *.
    rewrite H. now rewrite lookup_insert_eq.
  - unfold chosen_id. intros Hu.
    destruct (String.eqb_spec (default "" (headers !! "X-Request-ID")) ""); congruence.
  - destruct err; simpl; split; reflexivity.
  - unfold Middleware.RequestID, Middleware.ErrorHandler.
    destruct err; simpl; eexists; (split; [reflexivity |]);
      rewrite dom_insert_L, dom_singleton_L; reflexivity.
  - destruct err; reflexivity.
Qed.

(** X17: behind [RequestID] the type assertion of [Logger] never panics: the
    rest of the chain runs once, its context and its error are handed on
    unchanged, and the entry holds the id chosen for the request and the
    status the response has when [c.Next()] returns.  That is the status of
    the answer when the chain returns no error.  When it returns one,
    [ErrorHandler] sets the status only afterwards: a chain that leaves the
    response alone and returns a [*fiber.Error], as fiber does for a path
    without a route, is logged with 200 whatever code is answered.  On a
    request that did not pass [RequestID] the assertion panics before the
    rest of the chain runs. *)
Theorem Logger_after_RequestID (uuid : string)
    (next : Ctx -> Ctx * option Middleware.handler_error)
    (headers params : gmap string string) (query : option PaginationParams) :
  let c0 := Fiber.request headers params query in
  let c := Middleware.RequestID uuid (fun c => c) c0 in
  let entry :=
    Middleware.mkLogEntry (chosen_id uuid headers) (resp_status (fst (next c)))
      (Fiber.Get (fst (next c)) "User-Agent") in
  Middleware.Logger next c = Some (next c, entry)
  /\ (snd (next c) = None ->
      Middleware.log_status entry = resp_status (Middleware.respond (next c)))
  /\ (forall code message,
        let miss := fun c : Ctx => (c, Some (Middleware.FiberError code message)) in
        exists logged,
          Middleware.Logger miss c = Some (miss c, logged)
          /\ Middleware.log_status logged = 200
          /\ resp_status (Middleware.respond (miss c)) = code)
  /\ Middleware.Logger next c0 = None.
Proof.
  intros c0 c entry.
  assert (Hlocal : locals c !! "requestID" = Some (chosen_id uuid headers)).
  { subst c c0. unfold Middleware.RequestID, chosen_id, Fiber.Get. simpl.
    now rewrite lookup_insert_eq. }
  split; [| split; [| split]].
  - unfold Middleware.Logger. rewrite Hlocal. subst entry.
    now destruct (next c) as [c' err].
  - intros Hnone. subst entry. simpl. unfold Middleware.respond.
    destruct (next c) as [c' err]. simpl in *. now subst err.
  - intros code message miss. eexists. split; [| split].
    + unfold Middleware.Logger. rewrite Hlocal. reflexivity.
    + reflexivity.
    + reflexivity.
  - reflexivity.
Qed.

(** ** The age along the calendar *)

Section AgeOrder.

(** Turns every comparison of (month, day) pairs into linear facts. *)
Ltac md_cases :=
  repeat match goal with
  | |- context [md_ltb ?a ?b] =>
      let E := fresh "E" in
      destruct (md_ltb a b) eqn:E;
      [apply md_ltb_true in E | apply md_ltb_false in E]
  | H : context [md_ltb ?a ?b] |- _ =>
      let E := fresh "E" in
      destruct (md_ltb a b) eqn:E;
      [apply md_ltb_true in E | apply md_ltb_false in E]
  end; unfold month_day in *; simpl in *.

Lemma CalculateAge_le_reference (r r' d : Time) :
  year_ok r -> year_ok r' -> year_ok d ->
  date_le r r' -> CalculateAge r d <= CalculateAge r' d.
Proof.
  intros Hr Hr' Hd Hle.
  rewrite !CalculateAge_exact by now apply year_ok_diff.
  apply date_le_iff in Hle. md_cases; lia.
Qed.

Lemma CalculateAge_le_birth (r d d' : Time) :
  year_ok r -> year_ok d -> year_ok d' ->
  date_le d d' -> CalculateAge r d' <= CalculateAge r d.
Proof.
  intros Hr Hd Hd' Hle.
  rewrite !CalculateAge_exact by now apply year_ok_diff.
  apply date_le_iff in Hle. md_cases; lia.
Qed.

Lemma CalculateAge_cases (r d : Time) :
  year_ok r -> year_ok d ->
  (md_ltb (month_day r) (month_day d) = true /\ CalculateAge r d = Year r - Year d - 1)
  \/ (md_ltb (month_day r) (month_day d) = false /\ CalculateAge r d = Year r - Year d).
Proof.
  intros Hr Hd. rewrite CalculateAge_exact by now apply year_ok_diff.
  destruct (md_ltb _ _); [left | right]; split; auto; lia.
Qed.

End AgeOrder.

(** X18: the age never goes down as the reference date moves on, and a later
    date of birth never gives a greater age. *)
Theorem CalculateAge_monotone (r r' d d' : Time) :
  year_ok r -> year_ok r' -> year_ok d -> year_ok d' ->
  date_le r r' -> date_le d d' ->
  CalculateAge r d' <= CalculateAge r' d.
Proof.
  intros Hr Hr' Hd Hd' Hrr Hdd.
  transitivity (CalculateAge r d).
  - now apply CalculateAge_le_birth.
  - now apply CalculateAge_le_reference.
Qed.

Lemma CalculateAge_monotone_witness :
  CalculateAge (mkTime 2024 2 28) (mkTime 2000 2 29)
  <= CalculateAge (mkTime 2024 3 1) (mkTime 1999 12 31).
Proof.
  apply (CalculateAge_monotone (mkTime 2024 2 28) (mkTime 2024 3 1)
           (mkTime 1999 12 31) (mkTime 2000 2 29)); by_eval.
Defined.

(** X19: the same month and day one year later give an age greater by
    exactly one, and on the anniversary itself the age is the difference of
    the years. *)
Theorem CalculateAge_yearly (r d : Time) :
  year_ok r -> year_ok (next_year r) -> year_ok d ->
  CalculateAge (next_year r) d = CalculateAge r d + 1
  /\ (Month r = Month d -> Day r = Day d -> CalculateAge r d = Year r - Year d).
Proof.
  intros Hr Hr' Hd. split.
  - rewrite !CalculateAge_exact by now apply year_ok_diff.
    unfold next_year, month_day. simpl. lia.
  - intros Hm Hday. rewrite CalculateAge_exact by now apply year_ok_diff.
    destruct (md_ltb _ _) eqn:E; [| lia].
    apply md_ltb_true in E. unfold month_day in E. simpl in E. lia.
Qed.

Lemma CalculateAge_yearly_witness :
  CalculateAge (next_year (mkTime 2024 3 15)) (mkTime 2000 6 30)
  = CalculateAge (mkTime 2024 3 15) (mkTime 2000 6 30) + 1.
Proof.
  exact (proj1 (CalculateAge_yearly (mkTime 2024 3 15) (mkTime 2000 6 30)
                  ltac:(by_eval) ltac:(by_eval) ltac:(by_eval))).
Defined.

(** ** The tests of the age rule *)

Section Tests.

Lemma iter_next_day (k : nat) (y m d : Z) :
  1 <= d -> d + Z.of_nat k <= daysIn m y ->
  Nat.iter k next_day (mkTime y m d) = mkTime y m (d + Z.of_nat k).
Proof.
  intros Hd. induction k as [| k IH]; intros Hk.
  - simpl. f_equal. lia.
  - rewrite Nat.iter_succ, IH by lia. unfold next_day. simpl.
    destruct (Z.ltb_spec (d + Z.of_nat k) (daysIn m y)); [f_equal; lia | lia].
Qed.

Lemma shift_days_within (y m k : Z) :
  0 <= k < daysIn m y -> shift_days k (mkTime y m 1) = mkTime y m (k + 1).
Proof.
  intros Hk. unfold shift_days. destruct (Z.leb_spec 0 k); [| lia].
  rewrite iter_next_day by lia. f_equal. lia.
Qed.

Lemma shift_days_succ (k : Z) (t : Time) :
  0 <= k -> shift_days (k + 1) t = next_day (shift_days k t).
Proof.
  intros Hk. unfold shift_days.
  destruct (Z.leb_spec 0 k); [| lia]. destruct (Z.leb_spec 0 (k + 1)); [| lia].
  replace (Z.to_nat (k + 1)) with (S (Z.to_nat k)) by lia. reflexivity.
Qed.

(** One day back is [prev_day]. *)
Lemma shift_days_pred (t : Time) : shift_days (- 1) t = prev_day t.
Proof. reflexivity. Qed.

(** Thirty years before a leap year the year is common. *)
Lemma isLeap_minus_30 (y : Z) : isLeap y = true -> isLeap (y + -30) = false.
Proof.
  unfold isLeap. intros H. apply andb_true_iff in H as [H _].
  apply Z.eqb_eq in H.
  destruct (Z.eqb_spec ((y + -30) mod 4) 0); [exfalso; div_lia | reflexivity].
Qed.

Lemma daysIn_29 (m y : Z) : daysIn m y = 29 -> m = 2 /\ isLeap y = true.
Proof.
  unfold daysIn. destruct (Z.eqb_spec m 2); [| zcases; simpl; lia].
  destruct (isLeap y); [auto | lia].
Qed.

Lemma next_day_cases (t : Time) :
  (Day t < daysIn (Month t) (Year t)
   /\ next_day t = mkTime (Year t) (Month t) (Day t + 1))
  \/ (daysIn (Month t) (Year t) <= Day t /\ Month t < 12
      /\ next_day t = mkTime (Year t) (Month t + 1) 1)
  \/ (daysIn (Month t) (Year t) <= Day t /\ 12 <= Month t
      /\ next_day t = mkTime (Year t + 1) 1 1).
Proof. unfold next_day. zcases; auto. Qed.

(** The age of a date given by its fields, thirty or so years back. *)
Lemma age_of_fields (now : Time) (y m d : Z) :
  year_ok now -> Year now - 31 <= y <= Year now - 29 ->
  CalculateAge now (mkTime y m d) =
  Year now - y - (if md_ltb (Month now, Day now) (m, d) then 1 else 0).
Proof.
  intros Hy Hr. rewrite CalculateAge_exact by (unfold year_ok in Hy; simpl; lia).
  reflexivity.
Qed.

Ltac md_split :=
  match goal with
  | |- context [md_ltb ?a ?b] =>
      let E := fresh "E" in
      destruct (md_ltb a b) eqn:E;
      [apply md_ltb_true in E | apply md_ltb_false in E]; simpl in E
  end.

Lemma birthday_today (now : Time) :
  valid_date now ->
  CalculateAge now (AddDate (-30) 0 now) =
  if (Month now =? 2) && (Day now =? 29) then 29 else 30.
Proof.
  intros (Hy & Hm & Hd). unfold AddDate.
  destruct (Z_le_gt_dec (Day now) (daysIn (Month now) (Year now + -30))) as [H | H].
  - replace (Day now - 1 + 0) with (Day now - 1) by lia.
    rewrite shift_days_within by lia.
    rewrite age_of_fields by (simpl; lia || assumption).
    assert (Hfeb : (Month now =? 2) && (Day now =? 29) = false).
    { destruct (Z.eqb_spec (Month now) 2) as [E2 |]; [| reflexivity].
      destruct (Z.eqb_spec (Day now) 29) as [E29 |]; [| reflexivity]. exfalso.
      rewrite E2, E29 in *.
      assert (daysIn 2 (Year now) = 29)
        by (pose proof (daysIn_range 2 (Year now + -30));
            unfold daysIn in *; simpl in *; destruct (isLeap (Year now)); lia).
      apply daysIn_29 in H0 as [_ Hl]. apply isLeap_minus_30 in Hl.
      rewrite (daysIn_feb_common _ Hl) in H. lia. }
    rewrite Hfeb. md_split; lia.
  - destruct (daysIn_between (Month now) (Year now + -30) (Year now) (Day now))
      as (E2 & E29 & Hl); [lia |].
    rewrite E2, E29 in *. simpl.
    rewrite (daysIn_feb_common _ Hl) in H.
    change (29 - 1 + 0) with (27 + 1).
    rewrite shift_days_succ, shift_days_within
      by (rewrite ?(daysIn_feb_common _ Hl); lia).
    unfold next_day. simpl. rewrite (daysIn_feb_common _ Hl). simpl.
    rewrite age_of_fields by (simpl; lia || assumption).
    rewrite E2, E29. simpl. lia.
Qed.

Lemma birthday_tomorrow (now : Time) :
  valid_date now -> CalculateAge now (AddDate (-30) 1 now) = 29.
Proof.
  intros (Hy & Hm & Hd). unfold AddDate.
  pose proof (daysIn_range (Month now) (Year now + -30)) as Hrange.
  destruct (Z_le_gt_dec (Day now) (daysIn (Month now) (Year now + -30))) as [H | H].
  - replace (Day now - 1 + 1) with (Day now - 1 + 1) by lia.
    rewrite shift_days_succ, shift_days_within by lia.
    replace (Day now - 1 + 1) with (Day now) by lia.
    destruct (next_day_cases (mkTime (Year now + -30) (Month now) (Day now)))
      as [(_ & ->) | [(_ & _ & ->) | (_ & H12 & ->)]]; simpl in *;
      rewrite age_of_fields by (simpl; lia || assumption);
      md_split; lia.
  - destruct (daysIn_between (Month now) (Year now + -30) (Year now) (Day now))
      as (E2 & E29 & Hl); [lia |].
    rewrite E2, E29 in *. simpl.
    change (29 - 1 + 1) with (27 + 1 + 1).
    rewrite !shift_days_succ, shift_days_within
      by (rewrite ?(daysIn_feb_common _ Hl); lia).
    unfold next_day. simpl. rewrite (daysIn_feb_common _ Hl). simpl.
    rewrite age_of_fields by (simpl; lia || assumption).
    rewrite E2, E29. simpl. lia.
Qed.

Lemma birthday_yesterday (now : Time) :
  valid_date now -> CalculateAge now (AddDate (-30) (-1) now) = 30.
Proof.
  intros (Hy & Hm & Hd). unfold AddDate.
  pose proof (daysIn_range (Month now) (Year now + -30)) as Hrange.
  destruct (Z_le_gt_dec 2 (Day now)) as [H2 | H2].
  - assert (Hin : Day now - 1 <= daysIn (Month now) (Year now + -30)).
    { destruct (Z_le_gt_dec (Day now) (daysIn (Month now) (Year now + -30)));
        [lia |].
      destruct (daysIn_between (Month now) (Year now + -30) (Year now) (Day now))
        as (_ & E29 & _); lia. }
    replace (Day now - 1 + -1) with (Day now - 2) by lia.
    rewrite shift_days_within by lia.
    rewrite age_of_fields by (simpl; lia || assumption).
    md_split; lia.
  - replace (Day now - 1 + -1) with (- 1) by lia.
    rewrite shift_days_pred.
    destruct (prev_day_cases (mkTime (Year now + -30) (Month now) 1))
      as [(H1 & _) | [(_ & H1 & ->) | (_ & H1 & ->)]]; simpl in *; [lia | |];
      rewrite age_of_fields by (simpl; lia || assumption);
      md_split; lia.
Qed.

End Tests.

(** X20: the table test of the age rule compares against fixed expected ages
    with a tolerance of one year, so it depends on the day it is run: it
    passes exactly from 1 January 2024 to 9 May 2026. *)
Theorem TestCalculateAge_window (now : Time) :
  year_ok now ->
  (TestCalculateAge now = true <->
   date_le (mkTime 2024 1 1) now /\ date_le now (mkTime 2026 5 9)).
Proof.
  intros Hy. unfold TestCalculateAge, approximately.
  rewrite !CalculateAge_exact by (unfold year_ok in Hy; simpl; lia).
  rewrite !date_le_iff. unfold month_day. simpl.
  repeat match goal with
  | |- context [md_ltb ?a ?b] =>
      let E := fresh "E" in
      destruct (md_ltb a b) eqn:E;
      [apply md_ltb_true in E | apply md_ltb_false in E]; simpl in E
  end;
  rewrite !andb_true_iff, !negb_true_iff, !orb_false_iff, !Z.ltb_ge; lia.
Qed.

Lemma TestCalculateAge_window_witness :
  TestCalculateAge (mkTime 2025 6 15) = true <->
  date_le (mkTime 2024 1 1) (mkTime 2025 6 15)
  /\ date_le (mkTime 2025 6 15) (mkTime 2026 5 9).
Proof.
  exact (TestCalculateAge_window (mkTime 2025 6 15) ltac:(by_eval)).
Defined.

(** X21: the edge-case test takes the dates thirty years before today, the
    day after and the day before.  The second and third checks hold on every
    day; the first, "birthday today", fails exactly on 29 February, where
    thirty years back is 1 March of a common year and the age is 29.  So the
    test passes on every day but 29 February. *)
Theorem TestCalculateAgeEdgeCases_leap_day (now : Time) :
  valid_date now ->
  CalculateAge now (AddDate (-30) 1 now) = 29
  /\ CalculateAge now (AddDate (-30) (-1) now) = 30
  /\ (TestCalculateAgeEdgeCases now = true <-> ~ (Month now = 2 /\ Day now = 29)).
Proof.
  intros Hv.
  pose proof (birthday_today now Hv) as H0.
  pose proof (birthday_tomorrow now Hv) as H1.
  pose proof (birthday_yesterday now Hv) as H2.
  split; [exact H1 |]. split; [exact H2 |].
  unfold TestCalculateAgeEdgeCases. rewrite H0, H1, H2. simpl.
  rewrite andb_true_r.
  destruct (Z.eqb_spec (Month now) 2), (Z.eqb_spec (Day now) 29); simpl;
    split; intros; try discriminate; try reflexivity; try tauto; lia.
Qed.

Lemma TestCalculateAgeEdgeCases_leap_day_witness :
  TestCalculateAgeEdgeCases (mkTime 2024 2 29) = true <->
  ~ (Month (mkTime 2024 2 29) = 2 /\ Day (mkTime 2024 2 29) = 29).
Proof.
  exact (proj2 (proj2 (TestCalculateAgeEdgeCases_leap_day (mkTime 2024 2 29)
                         ltac:(by_eval)))).
Defined.

(** ** Listing and reading agree *)

(** X22: in a table without duplicate ids every user of a listed page is
    what a read of its id returns from the table the list statement saw, at
    the same time: same id, name, date string and age.  This holds whatever
    the count statement sees. *)
Theorem list_agrees_with_get (db db_count : Repo.Table) (now : Time)
    (params : PaginationParams) :
  let q := SetDefaults params in
  unique_ids db ->
  validate_PaginationParams params = true ->
  (Page q - 1) * PageSize q < 2 ^ 31 ->
  exists res,
    Service.ListUsers db db_count None None now params = Ok res
    /\ Forall (fun r => Service.GetUser db None now (resp_ID r) = Ok r) (Users res).
Proof.
  intros q Hu Hv Hoff.
  rewrite (ListUsers_ok db db_count now params Hv Hoff). fold q.
  eexists; split; [reflexivity |]. simpl.
  apply Forall_map, Forall_forall. intros u Hin. apply list_elem_of_In in Hin.
  apply page_in_rows in Hin. simpl.
  now rewrite (GetUser_found db now (ID u) u (find_unique _ u Hu Hin)).
Qed.

Lemma list_agrees_with_get_witness :
  exists res,
    Service.ListUsers
      (Repo.mkTable [mkUser 1 "a" (mkTime 1990 5 17) 0 0;
                     mkUser 2 "b" (mkTime 2000 1 1) 0 0] 3)
      (Repo.mkTable [mkUser 2 "b" (mkTime 2000 1 1) 0 0] 3)
      None None (mkTime 2024 6 1) (mkPaginationParams 1 1) = Ok res
    /\ Forall (fun r =>
         Service.GetUser
           (Repo.mkTable [mkUser 1 "a" (mkTime 1990 5 17) 0 0;
                          mkUser 2 "b" (mkTime 2000 1 1) 0 0] 3)
           None (mkTime 2024 6 1) (resp_ID r) = Ok r) (Users res).
Proof.
  exact (list_agrees_with_get
           (Repo.mkTable [mkUser 1 "a" (mkTime 1990 5 17) 0 0;
                          mkUser 2 "b" (mkTime 2000 1 1) 0 0] 3)
           (Repo.mkTable [mkUser 2 "b" (mkTime 2000 1 1) 0 0] 3)
           (mkTime 2024 6 1) (mkPaginationParams 1 1)
           ltac:(unfold unique_ids; simpl; apply NoDup_cons;
                 split; [| apply NoDup_singleton];
                 intros H; apply list_elem_of_singleton in H; discriminate)
           eq_refl ltac:(by_eval)).
Defined.

(** ** Bodies without a request id *)

Section NoRequestId.

Lemma json_of_UserResponse_no_request_id (c : Ctx) (u : UserResponse) :
  Fiber.body_field (Fiber.JSON c (Handler.json_of_UserResponse u)) "request_id" = None.
Proof. unfold Handler.json_of_UserResponse. now destruct (resp_Age u). Qed.

End NoRequestId.

(** X23: none of the five handlers ever puts a "request_id" member into its
    body, on success or on failure; only [ErrorHandler] does. *)
Theorem handlers_send_no_request_id (RuneCount : string -> Z)
    (db db_count : Repo.Table)
    (f1 f2 : option string) (now : Time) (clock : Z)
    (create : option CreateUserRequest) (update : option UpdateUserRequest)
    (headers params : gmap string string) (query : option PaginationParams) :
  let c := Fiber.request headers params query in
  Fiber.body_field (fst (Body.CreateUser RuneCount db f1 clock create c)) "request_id" = None
  /\ Fiber.body_field (Handler.GetUser db f1 now c) "request_id" = None
  /\ Fiber.body_field (Handler.ListUsers db db_count f1 f2 now c) "request_id" = None
  /\ Fiber.body_field (fst (Body.UpdateUser RuneCount db f1 clock update c)) "request_id" = None
  /\ Fiber.body_field (fst (Handler.DeleteUser db f1 f2 c)) "request_id" = None.
Proof.
  intros c. split; [| split; [| split; [| split]]].
  - unfold Body.CreateUser. destruct create as [req |]; [| reflexivity].
    destruct (Body.request_errors _ _ _); [| reflexivity].
    destruct (Service.CreateUser _ _ _ _) as [[u | e] db']; simpl.
    + apply json_of_UserResponse_no_request_id.
    + now destruct (is_ErrInvalidDate e).
  - unfold Handler.GetUser. destruct (Handler.ParseInt32 _); [| reflexivity].
    destruct (Service.GetUser _ _ _ _) as [u | e].
    + apply json_of_UserResponse_no_request_id.
    + now destruct (is_ErrUserNotFound e).
  - unfold Handler.ListUsers. destruct (negb _); [reflexivity |].
    now destruct (Service.ListUsers _ _ _ _ _ _).
  - unfold Body.UpdateUser. destruct (Handler.ParseInt32 _); [| reflexivity].
    destruct update as [req |]; [| reflexivity].
    destruct (Body.request_errors _ _ _); [| reflexivity].
    destruct (Service.UpdateUser _ _ _ _ _) as [[u | e] db']; simpl.
    + apply json_of_UserResponse_no_request_id.
    + destruct (is_ErrUserNotFound e); [reflexivity |].
      now destruct (is_ErrInvalidDate e).
  - unfold Handler.DeleteUser. destruct (Handler.ParseInt32 _); [| reflexivity].
    destruct (Service.DeleteUser _ _ _ _) as [[e |] db']; simpl; [| reflexivity].
    now destruct (is_ErrUserNotFound e).
Qed.

(** ** Dates that come back from the service *)

Section StoredDates.

Variable P : Time -> Prop.
Hypothesis P_parsed : forall s t, Layout.Parse s = Some t -> P t.

(** Whatever holds of every parsed date holds of every stored date. *)
Lemma reachable_dates (db : Repo.Table) :
  reachable db -> Forall (fun u => P (DOB u)) (Repo.rows db).
Proof.
  induction 1 as [| db fault clock req _ IH | db fault clock id req _ IH
                  | db f1 f2 id _ IH].
  - constructor.
  - unfold Service.CreateUser, Repo.Create.
    destruct (Layout.Parse (create_DOB req)) as [d |] eqn:Hp; [| exact IH].
    destruct fault; simpl; [exact IH |].
    apply Forall_app. split; [exact IH |].
    constructor; [exact (P_parsed _ _ Hp) | constructor].
  - unfold Service.UpdateUser, Repo.Update.
    destruct (Layout.Parse (update_DOB req)) as [d |] eqn:Hp; [| exact IH].
    destruct fault; simpl; [exact IH |].
    assert (H : Forall (fun u => P (DOB u))
                  (map (Repo.set_fields clock id (update_Name req) d) (Repo.rows db))).
    { apply Forall_map. eapply Forall_impl; [exact IH |]. simpl. intros u Hu.
      unfold Repo.set_fields. destruct (Repo.has_id id u); [| exact Hu].
      exact (P_parsed _ _ Hp). }
    now destruct (find _ _).
  - unfold Service.DeleteUser, Repo.Delete.
    destruct f1; simpl.
    + now destruct (String.eqb _ _).
    + pose proof (Forall_filter_users (fun u => P (DOB u)) id _ IH) as H.
      destruct f2; simpl.
      * now destruct (String.eqb _ _).
      * now destruct (_ =? 0).
Qed.

End StoredDates.

(** X24: every date string the service sends for a stored user can be sent
    back to it: in any table the service can produce, the date of a row
    printed by [Format] parses again to the same date, so it passes the
    validation of a create or update request. *)
Theorem stored_dates_round_trip (db : Repo.Table) (now : Time) (id : Z)
    (resp : UserResponse) :
  reachable db ->
  Service.GetUser db None now id = Ok resp ->
  exists d,
    Layout.Parse (resp_DOB resp) = Some d
    /\ Layout.Format d = resp_DOB resp
    /\ resp_Age resp = Some (CalculateAge now d)
    /\ Body.dob_errors (resp_DOB resp) = [].
Proof.
  intros Hr Hg. unfold Service.GetUser, Repo.GetById in Hg.
  destruct (find (Repo.has_id id) (Repo.rows db)) as [u |] eqn:Hf; [| discriminate].
  injection Hg as <-. simpl.
  pose proof (reachable_dates (fun t => valid_date t /\ 0 <= Year t <= 9999)
                Parse_valid db Hr) as Hall.
  rewrite Forall_forall in Hall. apply find_some in Hf as [Hin _].
  apply list_elem_of_In in Hin.
  destruct (Hall u Hin) as [Hv Hy].
  pose proof (Parse_Format (DOB u) Hv Hy) as Hp.
  exists (DOB u). repeat split; try assumption; try reflexivity.
  unfold Body.dob_errors. rewrite Hp.
  destruct (String.eqb_spec (Layout.Format (DOB u)) ""); [| reflexivity].
  rewrite e in Hp. discriminate.
Qed.

Lemma stored_dates_round_trip_witness :
  exists d,
    Layout.Parse "2000-02-29" = Some d /\ Layout.Format d = "2000-02-29".
Proof.
  destruct (stored_dates_round_trip
              (snd (Service.CreateUser (Repo.mkTable [] 1) None 0
                      (mkCreateUserRequest "Ann" "2000-02-29")))
              (mkTime 2024 1 1) 1
              (mkUserResponse 1 "Ann" "2000-02-29"
                 (Some (CalculateAge (mkTime 2024 1 1) (mkTime 2000 2 29))))
              (reach_create (Repo.mkTable [] 1) None 0
                 (mkCreateUserRequest "Ann" "2000-02-29") reach_empty)
              eq_refl) as (d & H1 & H2 & _).
  exists d. exact (conj H1 H2).
Defined.
